(** * Chunking summarizer of [summarize_transcriptions.py]

    A shallow embedding of [TranscriptionSummarizer]: the splitter
    ([chunk_text]), the reducer (the summarize/combine block of
    [process_file]) and the structurer ([organize_summary]), with the
    properties of the design document checked against them.

    Python values are modelled as follows.
    - [int] is [Z] (unbounded, as in Python).
    - [str] is a list of Unicode code points, each an [N].
    - Slices [t[a:b]] follow Python's index adjustment, negative indices
      included.
    - The text-generation service is a function of the call number and the
      request; the list of requests sent so far is the state threaded
      through every call. *)

From Stdlib Require Import String Ascii.
From Stdlib Require Import ZArith NArith List Lia Bool.
From Stdlib Require SpecFloat.
Import ListNotations.

#[local] Open Scope Z_scope.

(** ** Python strings *)

Module PyStr.

Definition char := N.
Definition str := list char.

(** An ASCII literal of the source as a [str]. *)
Definition lit (s : String.string) : str :=
  map Ascii.N_of_ascii (String.list_ascii_of_string s).

(** [len(t)] *)
Definition len (t : str) : Z := Z.of_nat (List.length t).

(** Index adjustment of a slice bound [i] for a sequence of length [n]:
    a negative bound counts from the end, and the result is clipped to
    [0..n]. *)
Definition adjust (n i : Z) : Z :=
  if i <? 0 then Z.max (i + n) 0 else Z.min i n.

(** [t[a:b]] *)
Definition slice (t : str) (a b : Z) : str :=
  let lo := adjust (len t) a in
  let hi := adjust (len t) b in
  firstn (Z.to_nat (hi - lo)) (skipn (Z.to_nat lo) t).

(** [t.startswith(sub)] *)
Fixpoint startswith (t sub : str) {struct sub} : bool :=
  match sub, t with
  | [], _ => true
  | _ :: _, [] => false
  | c :: sub', d :: t' => N.eqb c d && startswith t' sub'
  end.

(** Scan of [t] from the left, [i] being the index of its first
    character in the whole string: the result is the highest index at
    which [sub] starts, or [best] when there is none. *)
Fixpoint rfind_from (sub t : str) (i best : Z) : Z :=
  match t with
  | [] => if startswith [] sub then i else best
  | _ :: t' =>
      rfind_from sub t' (i + 1) (if startswith t sub then i else best)
  end.

(** [t.rfind(sub)]: highest index where [sub] is found, [-1] if none. *)
Definition rfind (t sub : str) : Z := rfind_from sub t 0 (-1).

(** [c.isspace()] for one code point: the characters Unicode classes as
    whitespace (bidirectional type WS, B or S, or category Zs). *)
Definition isspace (c : char) : bool :=
  (((9 <=? c) && (c <=? 13)) || ((28 <=? c) && (c <=? 32))
   || (c =? 133) || (c =? 160) || (c =? 5760)
   || ((8192 <=? c) && (c <=? 8202))
   || (c =? 8232) || (c =? 8233) || (c =? 8239) || (c =? 8287)
   || (c =? 12288))%N.

(** [t.lstrip()] *)
Fixpoint lstrip (t : str) : str :=
  match t with
  | [] => []
  | c :: t' => if isspace c then lstrip t' else t
  end.

(** [t.rstrip()] *)
Fixpoint rstrip (t : str) : str :=
  match t with
  | [] => []
  | c :: t' =>
      match rstrip t' with
      | [] => if isspace c then [] else [c]
      | r => c :: r
      end
  end.

(** [t.strip()] *)
Definition strip (t : str) : str := rstrip (lstrip t).

(** [sep.join(parts)] *)
Fixpoint join (sep : str) (parts : list str) : str :=
  match parts with
  | [] => []
  | [p] => p
  | p :: rest => p ++ sep ++ join sep rest
  end.

End PyStr.

Import PyStr.

(** ** The summarizer object *)

Record TranscriptionSummarizer := mkSummarizer {
  model_name : str;
  ollama_url : str;
  chunk_size : Z;
  overlap : Z
}.

(** [TranscriptionSummarizer.__init__]: the two sizes are not parameters,
    the constructor fixes them. *)
Definition __init__ (model_name ollama_url : str) : TranscriptionSummarizer :=
  {| model_name := model_name;
     ollama_url := ollama_url;
     chunk_size := 6000;
     overlap := 500 |}.

(** Attribute assignment [s.chunk_size = c; s.overlap = o], the only way
    the source offers to change the two sizes. *)
Definition with_sizes (s : TranscriptionSummarizer) (c o : Z)
  : TranscriptionSummarizer :=
  {| model_name := model_name s;
     ollama_url := ollama_url s;
     chunk_size := c;
     overlap := o |}.

(** The summarizer [main] creates: [MODEL_NAME] and the default URL. *)
Definition main_summarizer : TranscriptionSummarizer :=
  __init__ (lit "gpt-oss:120b") (lit "http://localhost:11434").

(** ** Splitter: [chunk_text] *)

Module Splitter.

Definition sentence_ends : list str :=
  [lit "."; lit "!"; lit "?"; [10%N; 10%N]].

(** The [for ending in sentence_ends] loop: the greatest [rfind]
    position, starting from [-1]. *)
Definition last_break (chunk_end : str) : Z :=
  fold_left
    (fun last ending =>
       let pos := rfind chunk_end ending in
       if last <? pos then pos else last)
    sentence_ends (-1).

(** Start of the region searched for a sentence ending. *)
Definition search_from (s : TranscriptionSummarizer) (start : Z) : Z :=
  Z.max start (start + chunk_size s - 200).

(** Body of the [while] loop up to the final value of [end]. *)
Definition window_end (s : TranscriptionSummarizer) (text : str)
           (start : Z) : Z :=
  let end_ := start + chunk_size s in
  if end_ <? len text then
    let chunk_end := slice text (Z.max start (end_ - 200)) end_ in
    let last := last_break chunk_end in
    if 0 <? last then Z.max start (end_ - 200) + last + 1 else end_
  else end_.

(** The [while start < len(text)] loop.  [fuel] bounds the number of
    iterations; [None] means the bound was reached with the loop still
    running. *)
Fixpoint chunk_loop (fuel : nat) (s : TranscriptionSummarizer)
         (text : str) (start : Z) (chunks : list str)
  : option (list str) :=
  if start <? len text then
    match fuel with
    | O => None
    | S fuel' =>
        let end_ := window_end s text start in
        chunk_loop fuel' s text (end_ - overlap s)
                   (chunks ++ [strip (slice text start end_)])
    end
  else Some chunks.

(** [chunk_text] *)
Definition chunk_text (fuel : nat) (s : TranscriptionSummarizer)
           (text : str) : option (list str) :=
  if len text <=? chunk_size s then Some [text]
  else chunk_loop fuel s text 0 [].

(** The same loop, recording the window [(start, end)] each iteration
    cuts instead of its text. *)
Fixpoint window_loop (fuel : nat) (s : TranscriptionSummarizer)
         (text : str) (start : Z) (windows : list (Z * Z))
  : option (list (Z * Z)) :=
  if start <? len text then
    match fuel with
    | O => None
    | S fuel' =>
        let end_ := window_end s text start in
        window_loop fuel' s text (end_ - overlap s)
                    (windows ++ [(start, end_)])
    end
  else Some windows.

Definition window_text (text : str) (w : Z * Z) : str :=
  strip (slice text (fst w) (snd w)).

(** [sub] starts at index [k] of [t]. *)
Definition occurs (t sub : str) (k : nat) : bool :=
  startswith (skipn k t) sub.

(** One of the four sentence endings starts at index [p] of [t]. *)
Definition marker_at (t : str) (p : Z) : Prop :=
  exists ending, In ending sentence_ends
                 /\ 0 <= p /\ occurs t ending (Z.to_nat p) = true.

(** [chunk_text] returns [chunks]: some number of iterations is enough. *)
Definition returns (s : TranscriptionSummarizer) (text : str)
           (chunks : list str) : Prop :=
  exists fuel, chunk_text fuel s text = Some chunks.

(** [chunk_text] never returns: no number of iterations is enough. *)
Definition diverges (s : TranscriptionSummarizer) (text : str) : Prop :=
  forall fuel, chunk_text fuel s text = None.

(** The windows cut by the loop of [chunk_text] on [text]. *)
Definition windows_of (s : TranscriptionSummarizer) (text : str)
           (windows : list (Z * Z)) : Prop :=
  exists fuel, window_loop fuel s text 0 [] = Some windows.

(** The configurations the design document calls valid. *)
Definition valid_config (s : TranscriptionSummarizer) : Prop :=
  0 <= overlap s < chunk_size s.

(** The overlap is smaller than the shortest window the loop can cut:
    a window cut at a sentence ending keeps at least the part before
    the searched region and two characters of it. *)
Definition advancing (s : TranscriptionSummarizer) : Prop :=
  overlap s < Z.max (chunk_size s - 200) 0 + 2.

(** Index [i] of the text lies in the window [w]. *)
Definition in_window (i : Z) (w : Z * Z) : Prop :=
  0 <= fst w /\ fst w <= i < snd w.

(** Every index of [text] lies in one of the windows. *)
Definition covers (text : str) (windows : list (Z * Z)) : Prop :=
  forall i, 0 <= i < len text -> Exists (in_window i) windows.

(** Each window starts [o] characters before the end of the one before. *)
Fixpoint chained (o : Z) (windows : list (Z * Z)) : Prop :=
  match windows with
  | w1 :: ((w2 :: _) as rest) => fst w2 = snd w1 - o /\ chained o rest
  | _ => True
  end.

End Splitter.

Import Splitter.

(** ** Python values, exceptions and the generation service *)

Module PyVal.

(** The values [json.loads] can return, and the records built from
    them.  A [dict] keeps its keys in insertion order. *)
#[warnings="-register-all"] Inductive pyval :=
| VNone
| VBool (b : bool)
| VInt (z : Z)
| VFloat (f : SpecFloat.spec_float)
| VStr (t : str)
| VList (items : list pyval)
| VDict (items : list (str * pyval)).

Definition dict := list (str * pyval).

(** [a == b] on strings *)
Fixpoint str_eqb (a b : str) : bool :=
  match a, b with
  | [], [] => true
  | x :: a', y :: b' => N.eqb x y && str_eqb a' b'
  | _, _ => false
  end.

(** [d[key] = v] on a dict: an existing key keeps its place. *)
Fixpoint dict_set (d : dict) (key : str) (v : pyval) : dict :=
  match d with
  | [] => [(key, v)]
  | (k, x) :: d' =>
      if str_eqb k key then (k, v) :: d' else (k, x) :: dict_set d' key v
  end.

Inductive exn := TypeError.

Inductive result (A : Type) :=
| Ok (a : A)
| Raise (e : exn).
Arguments Ok {A} a.
Arguments Raise {A} e.

(** [obj[key] = v] with a string key: only a dict supports it; a list
    wants integer indices, the other values no item assignment. *)
Definition setitem (obj : pyval) (key : str) (v : pyval) : result pyval :=
  match obj with
  | VDict d => Ok (VDict (dict_set d key v))
  | _ => Raise TypeError
  end.

(** Truth value of an optional string: [None] and [""] are false. *)
Definition truthy (r : option str) : bool :=
  match r with
  | Some (_ :: _) => true
  | _ => false
  end.

End PyVal.

Import PyVal.

Module Service.

(** One POST to [/api/generate]. *)
Record request := mkRequest {
  req_url : str;
  req_model : str;
  req_prompt : str;
  req_system : option str
}.

(** The requests sent so far, oldest first. *)
Definition log := list request.

(** A computation that sends requests and may raise. *)
Definition M (A : Type) : Type := log -> result A * log.

Definition ret {A} (a : A) : M A := fun l => (Ok a, l).

Definition bind {A B} (m : M A) (k : A -> M B) : M B :=
  fun l =>
    match m l with
    | (Ok a, l') => k a l'
    | (Raise e, l') => (Raise e, l')
    end.

Definition lift {A} (r : result A) : M A := fun l => (r, l).

End Service.

Import Service.

Notation "x <- m ;; k" := (bind m (fun x => k))
  (at level 61, m at next level, right associativity).

(** ** Reducer and structurer *)

(** [metadata]: the dict [extract_metadata] builds has exactly these five
    keys, so it is a record here; [metadata_dict] is the dict itself. *)
Record Metadata := mkMetadata {
  filename : str;
  date : str;
  title : str;
  word_count : Z;
  char_count : Z
}.

Definition metadata_dict (m : Metadata) : pyval :=
  VDict [(lit "filename", VStr (filename m));
         (lit "date", VStr (date m));
         (lit "title", VStr (title m));
         (lit "word_count", VInt (word_count m));
         (lit "char_count", VInt (char_count m))].

Module Text.

Definition nl : str := [10%N].

(** The lines of a triple-quoted literal. *)
Definition lines (ls : list str) : str := join nl ls.

(** [t.replace(old, new)] for a non-empty [old]; [skip] characters of a
    match just replaced are still to be passed over. *)
Fixpoint replace_from (old new : str) (skip : nat) (t : str) : str :=
  match t with
  | [] => []
  | c :: t' =>
      match skip with
      | S k => replace_from old new k t'
      | O =>
          if startswith t old
          then new ++ replace_from old new (List.length old - 1) t'
          else c :: replace_from old new 0 t'
      end
  end.

Definition replace (t old new : str) : str := replace_from old new 0 t.

(** The text before the first [sep] and, when there is one, after it. *)
Fixpoint cut (sep t : str) : str * option str :=
  match t with
  | [] => ([], None)
  | c :: t' =>
      if startswith t sep then ([], Some (skipn (List.length sep) t))
      else let (before, after) := cut sep t' in (c :: before, after)
  end.

(** [t.split(sep, 1)] for a non-empty [sep] *)
Definition split1 (t sep : str) : list str :=
  match cut sep t with
  | (before, Some after) => [before; after]
  | (before, None) => [before]
  end.

(** [len(t.split())]: the number of runs of non-whitespace. *)
Fixpoint count_words (in_word : bool) (t : str) : Z :=
  match t with
  | [] => 0
  | c :: t' =>
      if isspace c then count_words false t'
      else (if in_word then 0 else 1) + count_words true t'
  end.

End Text.

Import Text.

(** [extract_metadata] *)
Definition extract_metadata (filename content : str) : Metadata :=
  let parts := split1 (replace filename (lit ".txt") []) (lit " -- ") in
  {| filename := filename;
     date := match parts with p :: _ => p | [] => lit "unknown" end;
     title := match parts with _ :: p :: _ => p | _ => filename end;
     word_count := count_words false content;
     char_count := len content |}.

(** The prompts. *)
Module Prompt.

Definition partial (chunk : str) : str :=
  lines
    [lit "Summarize this portion of a meeting transcript. Focus on key points, decisions, and action items:";
     [];
     chunk;
     [];
     lit "Provide a concise summary covering main topics discussed."].

Definition whole (chunk : str) : str :=
  lines
    [lit "Summarize this meeting transcript. Focus on:";
     lit "- Key topics discussed";
     lit "- Decisions made";
     lit "- Action items";
     lit "- Important insights or concerns";
     [];
     lit "Transcript:";
     chunk;
     [];
     lit "Provide a well-organized summary."].

Definition separator : str := nl ++ nl ++ lit "---" ++ nl ++ nl.

Definition combine (combined : str) : str :=
  lines
    [lit "The following are summaries of different parts of the same meeting transcript. ";
     lit "Combine them into a single, coherent summary that:";
     lit "- Eliminates redundancy";
     lit "- Organizes information logically";
     lit "- Highlights key decisions and action items";
     lit "- Maintains chronological flow where relevant";
     [];
     lit "Partial summaries:";
     combined;
     [];
     lit "Provide the final combined summary."].

Definition organize (summary date : str) : str :=
  lines
    [lit "From this meeting summary, extract:";
     lit "1. Meeting Title/Subject";
     lit "2. Date (if mentioned in content): " ++ date;
     lit "3. Participants (list names if mentioned)";
     lit "4. Key Topics (list main discussion points)";
     lit "5. Decisions Made (list any decisions)";
     lit "6. Action Items (list any tasks or follow-ups)";
     lit "7. Tags (3-5 relevant keywords)";
     [];
     lit "Meeting Summary:";
     summary;
     [];
     lit "Respond in JSON format with these fields: title, date, participants, topics, decisions, action_items, tags"].

End Prompt.

Section Summarizer.

(** The generation service: what the call number [n] (calls are counted
    from 0) answers to a request.  [None] stands for every failed call:
    a status other than 200, a timeout or any other exception. *)
Variable generate : nat -> request -> option str.

(** [json.loads] on a string: [None] when it raises. *)
Variable json_loads : str -> option pyval.

Variable s : TranscriptionSummarizer.

(** [call_ollama] *)
Definition call_ollama (prompt : str) (system_prompt : option str)
  : M (option str) :=
  fun l =>
    let payload :=
      {| req_url := ollama_url s ++ lit "/api/generate";
         req_model := model_name s;
         req_prompt := prompt;
         req_system := if truthy system_prompt then system_prompt
                       else None |} in
    (Ok (generate (List.length l) payload), l ++ [payload]).

(** [summarize_chunk] *)
Definition summarize_chunk (chunk : str) (is_partial : bool)
  : M (option str) :=
  call_ollama (if is_partial then Prompt.partial chunk
               else Prompt.whole chunk) None.

(** [combine_summaries] *)
Definition combine_summaries (summaries : list str) : M (option str) :=
  let combined := join Prompt.separator summaries in
  call_ollama (Prompt.combine combined) None.

(** The [try] block of [organize_summary]: [json.loads(response)]
    raises on [None] as on a text that is not JSON, and the bare
    [except] catches both. *)
Definition try_loads (response : option str) : option pyval :=
  match response with
  | None => None
  | Some text => json_loads text
  end.

(** The record [organize_summary] falls back to. *)
Definition fallback (summary : str) (metadata : Metadata) : pyval :=
  VDict [(lit "title", VStr (title metadata));
         (lit "date", VStr (date metadata));
         (lit "raw_summary", VStr summary)].

(** [organize_summary] *)
Definition organize_summary (summary : str) (metadata : Metadata)
  : M pyval :=
  response <- call_ollama (Prompt.organize summary (date metadata)) None ;;
  let structured :=
    match try_loads response with
    | Some v => v
    | None => fallback summary metadata
    end in
  structured <- lift (setitem structured (lit "metadata")
                              (metadata_dict metadata)) ;;
  structured <- lift (setitem structured (lit "summary")
                              (VStr summary)) ;;
  ret structured.

(** [process_file], the [for] loop over the chunks: the summaries kept
    so far are [chunk_summaries]. *)
Fixpoint summarize_each (chunks : list str) (chunk_summaries : list str)
  : M (list str) :=
  match chunks with
  | [] => ret chunk_summaries
  | chunk :: rest =>
      chunk_summary <- summarize_chunk chunk true ;;
      summarize_each rest
        (match chunk_summary with
         | Some ((_ :: _) as text) => chunk_summaries ++ [text]
         | _ => chunk_summaries
         end)
  end.

(** [process_file], the value of [summary]: one call for a single
    chunk, else one call per chunk and one to combine. *)
Definition file_summary (chunks : list str) : M (option str) :=
  match chunks with
  | [chunk] => summarize_chunk chunk false
  | _ =>
      chunk_summaries <- summarize_each chunks [] ;;
      combine_summaries chunk_summaries
  end.

(** [process_file] from the chunks on; [None] is the failed document. *)
Definition process_chunks (metadata : Metadata) (chunks : list str)
  : M (option pyval) :=
  summary <- file_summary chunks ;;
  match summary with
  | Some ((_ :: _) as text) =>
      organized <- organize_summary text metadata ;;
      ret (Some organized)
  | _ => ret None
  end.

(** [process_file] on a file of the given name and content.  The outer
    [None] is a [chunk_text] that needs more than [fuel] iterations. *)
Definition process_file (fuel : nat) (name content : str)
  : option (M (option pyval)) :=
  let metadata := extract_metadata name content in
  match chunk_text fuel s content with
  | None => None
  | Some chunks => Some (process_chunks metadata chunks)
  end.

(** The requests of the three kinds of call, and what the service
    answers to the per-chunk calls when the first of them is call
    number [n]. *)
Definition request_for (prompt : str) : request :=
  {| req_url := ollama_url s ++ lit "/api/generate";
     req_model := model_name s;
     req_prompt := prompt;
     req_system := None |}.

Definition partial_request (chunk : str) : request :=
  request_for (Prompt.partial chunk).

Definition combine_request (summaries : list str) : request :=
  request_for (Prompt.combine (join Prompt.separator summaries)).

Fixpoint answers (n : nat) (chunks : list str) : list (option str) :=
  match chunks with
  | [] => []
  | chunk :: rest =>
      generate n (partial_request chunk) :: answers (S n) rest
  end.

(** The request [organize_summary] sends. *)
Definition organize_request (summary : str) (metadata : Metadata)
  : request :=
  request_for (Prompt.organize summary (date metadata)).

(** The fallback record with [metadata] and [summary] attached. *)
Definition fallback_record (summary : str) (metadata : Metadata) : pyval :=
  VDict [(lit "title", VStr (title metadata));
         (lit "date", VStr (date metadata));
         (lit "raw_summary", VStr summary);
         (lit "metadata", metadata_dict metadata);
         (lit "summary", VStr summary)].

(** The answers the loop of [process_file] keeps. *)
Definition kept (rs : list (option str)) : list str :=
  flat_map (fun r => match r with
                     | Some ((_ :: _) as text) => [text]
                     | _ => []
                     end) rs.

End Summarizer.

(** The document is marked failed: [process_file] returns [None]. *)
Definition failed (run : result (option pyval) * log) : Prop :=
  fst run = Ok None.

(** A decoder for the JSON documents of the examples below: the three
    literals and the two empty containers.  The statements about
    [organize_summary] hold for every decoder. *)
Definition loads_literals (text : str) : option pyval :=
  if str_eqb text (lit "null") then Some VNone
  else if str_eqb text (lit "true") then Some (VBool true)
  else if str_eqb text (lit "false") then Some (VBool false)
  else if str_eqb text (lit "[]") then Some (VList [])
  else if str_eqb text (lit "{}") then Some (VDict [])
  else None.

(** ** Texts and configurations of the examples *)

Module Examples.

(** Sizes under which the loop of [chunk_text] does not advance. *)
Definition stuck_summarizer := with_sizes main_summarizer 4 2.
Definition stuck_text : str := lit "a.aaa".

(** An overlap as large as the chunk size. *)
Definition equal_sizes := with_sizes main_summarizer 6000 6000.
Definition plain_text : str := repeat 97%N (Z.to_nat 6001).

(** Sizes under which the cursor moves back, then jumps ahead. *)
Definition gap_summarizer := with_sizes main_summarizer 10 4.
Definition gap_text : str := lit "a.XYaaaaaaaaaaaaaaaaaaaaaaaaaa".

Definition blank_text : str := repeat 32%N (Z.to_nat 6001).

(** Texts of 6101 characters with one sentence ending: a full stop at the
    first character of the region searched in the first window, a
    blank-line break inside that region, a full stop inside it. *)
Definition stop_at_5800 : str :=
  repeat 97%N (Z.to_nat 5800) ++ lit "." ++ repeat 97%N (Z.to_nat 300).
Definition blank_line_at_5900 : str :=
  repeat 97%N (Z.to_nat 5900) ++ [10%N; 10%N] ++ repeat 97%N (Z.to_nat 300).
Definition stop_at_5900 : str :=
  repeat 97%N (Z.to_nat 5900) ++ lit "." ++ repeat 97%N (Z.to_nat 300).

(** Services: one that fails but for call number [n], which answers
    [text]. *)
Definition only_call (n : nat) (text : str) : nat -> request -> option str :=
  fun k _ => if Nat.eqb k n then Some text else None.

(** A service whose first call fails, whose second call answers the
    empty string and whose later calls answer ["B"]. *)
Definition empty_answer : nat -> request -> option str :=
  fun k _ =>
    match k with
    | O => None
    | S O => Some []
    | _ => Some (lit "B")
    end.

Definition sample_metadata : Metadata :=
  extract_metadata (lit "2024-10-14_11-01-16 -- standup.txt")
                   (lit "hello world").

End Examples.

Import Examples.

(** ** Further definitions: segments, records and the walk of a directory *)

Module SplitterSpec.

(** A segment carries no whitespace at either end. *)
Definition trimmed (c : str) : Prop :=
  (forall x rest, c = x :: rest -> isspace x = false)
  /\ (forall x init, c = init ++ [x] -> isspace x = false).

(** [c] is a contiguous part of [text]. *)
Definition substring (c text : str) : Prop :=
  exists before after, text = before ++ c ++ after.

(** The least the cursor advances in one iteration: the shorter of a
    full window and a window cut at the first possible sentence ending,
    less the overlap. *)
Definition min_step (s : TranscriptionSummarizer) : Z :=
  Z.min (chunk_size s) (Z.max (chunk_size s - 200) 0 + 2) - overlap s.

(** No sentence ending starts anywhere in the text. *)
Definition marker_free (text : str) : Prop :=
  forall p, ~ marker_at text p.

End SplitterSpec.

Import SplitterSpec.

Module PyDict.

(** [d.get(key)] *)
Fixpoint dict_get (d : dict) (key : str) : option pyval :=
  match d with
  | [] => None
  | (k, x) :: d' => if str_eqb k key then Some x else dict_get d' key
  end.

(** Truth value of a value, as [if result:] takes it. *)
Definition py_truthy (v : pyval) : bool :=
  match v with
  | VNone => false
  | VBool b => b
  | VInt z => negb (z =? 0)
  | VFloat (SpecFloat.S754_zero _) => false
  | VFloat _ => true
  | VStr t => match t with [] => false | _ => true end
  | VList items => match items with [] => false | _ => true end
  | VDict items => match items with [] => false | _ => true end
  end.

End PyDict.

Import PyDict.

Section Directory.

Variable generate : nat -> request -> option str.
Variable json_loads : str -> option pyval.
Variable s : TranscriptionSummarizer.

(** What [open(filepath).read()] gives for the file of a given name:
    [None] when opening or decoding raises. *)
Variable read_text : str -> option str.

(** Whether the summary of the file of a given name can be written:
    [false] when [open] or [json.dump] raises. *)
Variable can_write : str -> bool.

(** The request of the single call made for a text of one chunk. *)
Definition whole_request (chunk : str) : request :=
  request_for s (Prompt.whole chunk).

(** How [process_file(filepath)] ends inside the [try] of
    [process_directory]: it returns, or an exception reaches the
    [except]. *)
Inductive attempt :=
| Returned (result : option pyval)
| Raised.

(** [process_file] on a path, the read included.  The outer [None] is a
    [chunk_text] that needs more than [fuel] iterations. *)
Definition process_path (fuel : nat) (name : str)
  : log -> option (attempt * log) :=
  fun l =>
    match read_text name with
    | None => Some (Raised, l)
    | Some content =>
        match process_file generate json_loads s fuel name content with
        | None => None
        | Some run =>
            match run l with
            | (Ok result, l') => Some (Returned result, l')
            | (Raise _, l') => Some (Raised, l')
            end
        end
    end.

(** The two lists [process_directory] fills. *)
Record tally := mkTally {
  results : list pyval;
  failed_files : list str
}.

(** The body of the [try] and its [except], once [process_file] has
    ended: a result that is true is appended to [results] before its file
    is written, so a failed write leaves it there and adds the name to
    [failed]. *)
Definition record_attempt (name : str) (a : attempt) (t : tally) : tally :=
  match a with
  | Returned (Some result) =>
      if py_truthy result then
        if can_write name
        then {| results := results t ++ [result];
                failed_files := failed_files t |}
        else {| results := results t ++ [result];
                failed_files := failed_files t ++ [name] |}
      else {| results := results t;
              failed_files := failed_files t ++ [name] |}
  | Returned None =>
      {| results := results t; failed_files := failed_files t ++ [name] |}
  | Raised =>
      {| results := results t; failed_files := failed_files t ++ [name] |}
  end.

(** [process_directory], the loop over the sorted [.txt] files.  The
    call of [get_model_info] before it sends nothing to [/api/generate]
    and its result is not used; the index and the markdown file are
    written after it. *)
Fixpoint process_each (fuel : nat) (names : list str) (t : tally)
  : log -> option (tally * log) :=
  fun l =>
    match names with
    | [] => Some (t, l)
    | name :: rest =>
        match process_path fuel name l with
        | None => None
        | Some (a, l') => process_each fuel rest (record_attempt name a t) l'
        end
    end.

(** The counts [process_directory] writes to the index:
    [total_files], [successful] and [failed]. *)
Definition index_counts (names : list str) (t : tally) : Z * Z * Z :=
  (Z.of_nat (List.length names),
   Z.of_nat (List.length (results t)),
   Z.of_nat (List.length (failed_files t))).

End Directory.

Module MoreExamples.

(** A text of 20000 characters without a sentence ending. *)
Definition long_text : str := repeat 97%N (Z.to_nat 20000).

(** A directory of three files: the second cannot be read, the summary
    of the third cannot be written. *)
Definition three_files : list str :=
  [lit "a.txt"; lit "b.txt"; lit "c.txt"].
Definition read_three (name : str) : option str :=
  if str_eqb name (lit "b.txt") then None else Some (lit "hello").
Definition write_three (name : str) : bool :=
  negb (str_eqb name (lit "c.txt")).

(** A service that answers every call with the same text. *)
Definition always (text : str) : nat -> request -> option str :=
  fun _ _ => Some text.

(** A JSON object as the service may answer it, with a [summary] and a
    [metadata] of its own, and a decoder that knows this one document
    besides those of [loads_literals]. *)
Definition quoted (t : str) : str := [34%N] ++ t ++ [34%N].

Definition standup_json : str :=
  lit "{" ++ quoted (lit "title") ++ lit ": " ++ quoted (lit "Standup")
  ++ lit ", " ++ quoted (lit "summary") ++ lit ": "
  ++ quoted (lit "from the model")
  ++ lit ", " ++ quoted (lit "metadata") ++ lit ": null"
  ++ lit ", " ++ quoted (lit "tags") ++ lit ": ["
  ++ quoted (lit "t1") ++ lit "]}".

Definition standup_items : list (str * pyval) :=
  [(lit "title", VStr (lit "Standup"));
   (lit "summary", VStr (lit "from the model"));
   (lit "metadata", VNone);
   (lit "tags", VList [VStr (lit "t1")])].

Definition loads_standup (text : str) : option pyval :=
  if str_eqb text standup_json then Some (VDict standup_items)
  else loads_literals text.

End MoreExamples.

Import MoreExamples.

(** *** Facts about [rfind] and the search for a sentence ending *)

Section RfindFacts.

Variable sub : str.
Hypothesis sub_nonempty : sub <> [].

Lemma startswith_nil : startswith [] sub = false.
Proof. destruct sub; [contradiction | reflexivity]. Qed.

Lemma occurs_past_end t k :
  (List.length t <= k)%nat -> occurs t sub k = false.
Proof.
  intros H. unfold occurs. rewrite skipn_all2 by exact H.
  apply startswith_nil.
Qed.

Lemma rfind_from_spec t : forall i best,
  (rfind_from sub t i best = best /\ forall k, occurs t sub k = false)
  \/ (exists k : nat,
        rfind_from sub t i best = i + Z.of_nat k
        /\ (k < List.length t)%nat
        /\ occurs t sub k = true
        /\ forall k', (k < k')%nat -> occurs t sub k' = false).
Proof.
  induction t as [|c t' IH]; intros i best; cbn [rfind_from].
  - left. rewrite startswith_nil. split; [reflexivity|].
    intros k. apply occurs_past_end. simpl. lia.
  - destruct (IH (i + 1) (if startswith (c :: t') sub then i else best))
      as [[Hr Hno] | (k & Hr & Hk & Hocc & Hlast)].
    + destruct (startswith (c :: t') sub) eqn:Hhere.
      * right. exists 0%nat. rewrite Hr.
        repeat split; [lia | simpl; lia | exact Hhere |].
        intros [|k'] Hlt; [lia | apply Hno].
      * left. split; [exact Hr|].
        intros [|k]; [exact Hhere | apply Hno].
    + right. exists (S k). rewrite Hr.
      repeat split; [lia | simpl; lia | exact Hocc |].
      intros [|k'] Hlt; [lia | apply Hlast; lia].
Qed.

Lemma rfind_spec t :
  (rfind t sub = -1 /\ forall k, occurs t sub k = false)
  \/ (exists k : nat,
        rfind t sub = Z.of_nat k
        /\ (k < List.length t)%nat
        /\ occurs t sub k = true
        /\ forall k', (k < k')%nat -> occurs t sub k' = false).
Proof.
  unfold rfind.
  destruct (rfind_from_spec t 0 (-1)) as [H | (k & Hr & H)];
    [left; exact H | right; exists k; rewrite Hr; split; [lia | exact H]].
Qed.

Lemma rfind_upper t k :
  occurs t sub k = true -> Z.of_nat k <= rfind t sub.
Proof.
  intros Hk.
  destruct (rfind_spec t) as [[_ Hno] | (k0 & Hr & _ & _ & Hlast)].
  - rewrite Hno in Hk. discriminate.
  - destruct (Nat.lt_ge_cases k0 k) as [Hlt | Hge]; [|lia].
    rewrite (Hlast k Hlt) in Hk. discriminate.
Qed.

End RfindFacts.

Section LastBreakFacts.

Lemma sentence_ends_nonempty ending :
  In ending sentence_ends -> ending <> [].
Proof.
  unfold sentence_ends. simpl.
  intros [H | [H | [H | [H | []]]]]; subst; discriminate.
Qed.

(** The fold of [last_break] over any list of endings. *)
Lemma fold_break_spec t : forall endings last,
  let r := fold_left
             (fun last ending =>
                let pos := rfind t ending in
                if last <? pos then pos else last)
             endings last in
  last <= r
  /\ (forall e, In e endings -> rfind t e <= r)
  /\ (r = last \/ exists e, In e endings /\ r = rfind t e).
Proof.
  induction endings as [|e endings IH]; intros last; simpl.
  - repeat split; [lia | intros e [] | left; reflexivity].
  - specialize (IH (if last <? rfind t e then rfind t e else last)).
    cbv zeta in IH.
    destruct (Z.ltb_spec last (rfind t e)) as [Hlt | Hge];
      destruct IH as (Hle & Hall & Hwho).
    + repeat split; [lia | |].
      * intros e' [<- | He']; [exact Hle | apply Hall, He'].
      * right. destruct Hwho as [-> | (e' & He' & ->)];
          [exists e | exists e']; auto.
    + repeat split; [lia | |].
      * intros e' [<- | He']; [lia | apply Hall, He'].
      * destruct Hwho as [-> | (e' & He' & ->)];
          [left; reflexivity | right; exists e'; auto].
Qed.

Lemma last_break_upper t q : marker_at t q -> q <= last_break t.
Proof.
  intros (e & He & Hq & Hocc).
  pose proof (rfind_upper e (sentence_ends_nonempty e He) t _ Hocc).
  destruct (fold_break_spec t sentence_ends (-1)) as (_ & Hall & _).
  specialize (Hall e He). change (rfind t e <= last_break t) in Hall. lia.
Qed.

Lemma last_break_marker t :
  0 <= last_break t -> marker_at t (last_break t).
Proof.
  intros Hpos.
  destruct (fold_break_spec t sentence_ends (-1)) as (_ & _ & Hwho).
  change (last_break t = -1
          \/ exists e, In e sentence_ends /\ last_break t = rfind t e)
    in Hwho.
  destruct Hwho as [H | (e & He & Hr)]; [lia|].
  exists e. split; [exact He|]. split; [exact Hpos|].
  destruct (rfind_spec e (sentence_ends_nonempty e He) t)
    as [[Hm _] | (k & Hk & _ & Hocc & _)]; [lia|].
  rewrite Hr, Hk, Nat2Z.id. exact Hocc.
Qed.

Lemma last_break_bound t : last_break t < len t.
Proof.
  destruct (fold_break_spec t sentence_ends (-1)) as (_ & _ & Hwho).
  change (last_break t = -1
          \/ exists e, In e sentence_ends /\ last_break t = rfind t e)
    in Hwho.
  unfold len.
  destruct Hwho as [H | (e & He & Hr)]; [lia|].
  destruct (rfind_spec e (sentence_ends_nonempty e He) t)
    as [[Hm _] | (k & Hk & Hlt & _)]; lia.
Qed.

End LastBreakFacts.

(** *** Slices and [strip] *)

Section SliceFacts.

Lemma slice_length t a b :
  0 <= a -> 0 <= b ->
  len (slice t a b) = Z.max 0 (Z.min b (len t) - Z.min a (len t)).
Proof.
  intros Ha Hb. unfold slice, adjust, len.
  destruct (Z.ltb_spec a 0) as [?|_]; [lia|].
  destruct (Z.ltb_spec b 0) as [?|_]; [lia|].
  rewrite length_firstn, length_skipn. lia.
Qed.

Lemma slice_nonempty t a b :
  0 <= a < len t -> a < b -> slice t a b <> [].
Proof.
  intros Ha Hb Hnil.
  pose proof (slice_length t a b ltac:(lia) ltac:(lia)) as Hlen.
  rewrite Hnil in Hlen. unfold len in Hlen at 1. simpl in Hlen. lia.
Qed.

Lemma startswith_firstn sub : forall n t,
  startswith (firstn n t) sub = true -> startswith t sub = true.
Proof.
  induction sub as [|c sub IH]; intros n t; [reflexivity|].
  destruct n as [|n]; [discriminate|].
  destruct t as [|d t]; [discriminate|]. simpl.
  destruct (N.eqb c d); [apply IH | discriminate].
Qed.

(** An occurrence inside a slice is an occurrence in the text. *)
Lemma occurs_slice t a b sub k :
  0 <= a <= len t ->
  occurs (slice t a b) sub k = true ->
  occurs t sub (Z.to_nat a + k) = true.
Proof.
  intros Ha. unfold occurs, slice, adjust.
  destruct (Z.ltb_spec a 0) as [?|_]; [lia|].
  rewrite (Z.min_l a) by lia.
  rewrite skipn_firstn_comm, skipn_skipn, (Nat.add_comm k).
  apply startswith_firstn.
Qed.

Lemma lstrip_nil t : lstrip t = [] -> forallb isspace t = true.
Proof.
  induction t as [|c t IH]; simpl; [reflexivity|].
  destruct (isspace c); [exact IH | discriminate].
Qed.

Lemma lstrip_head t :
  lstrip t = [] \/ exists c r, lstrip t = c :: r /\ isspace c = false.
Proof.
  induction t as [|c t IH]; simpl; [left; reflexivity|].
  destruct (isspace c) eqn:Hc; [exact IH|].
  right. exists c, t. split; [reflexivity | exact Hc].
Qed.

Lemma rstrip_nil t : rstrip t = [] -> forallb isspace t = true.
Proof.
  induction t as [|c t IH]; simpl; [reflexivity|].
  destruct (rstrip t); [|discriminate].
  destruct (isspace c); [intros _; apply IH; reflexivity | discriminate].
Qed.

Lemma strip_nil t : strip t = [] -> forallb isspace t = true.
Proof.
  unfold strip. intros H. apply rstrip_nil in H.
  destruct (lstrip_head t) as [Hl | (c & r & Hl & Hc)].
  - apply lstrip_nil, Hl.
  - rewrite Hl in H. simpl in H. rewrite Hc in H. discriminate.
Qed.

End SliceFacts.

(** *** The loop of [chunk_text] *)

Section LoopFacts.

Variable s : TranscriptionSummarizer.
Variable text : str.

Lemma chunk_loop_done fuel start chunks :
  len text <= start -> chunk_loop fuel s text start chunks = Some chunks.
Proof.
  intros H. destruct fuel; simpl;
    destruct (Z.ltb_spec start (len text)); (lia || reflexivity).
Qed.

Lemma chunk_loop_out start chunks :
  start < len text -> chunk_loop 0 s text start chunks = None.
Proof.
  intros H. simpl. destruct (Z.ltb_spec start (len text)); [reflexivity | lia].
Qed.

Lemma chunk_loop_step fuel start chunks :
  start < len text ->
  chunk_loop (S fuel) s text start chunks
  = chunk_loop fuel s text (window_end s text start - overlap s)
      (chunks ++ [strip (slice text start (window_end s text start))]).
Proof.
  intros H. cbn [chunk_loop].
  destruct (Z.ltb_spec start (len text)); [reflexivity | lia].
Qed.

Lemma window_loop_done fuel start ws :
  len text <= start -> window_loop fuel s text start ws = Some ws.
Proof.
  intros H. destruct fuel; simpl;
    destruct (Z.ltb_spec start (len text)); (lia || reflexivity).
Qed.

Lemma window_loop_step fuel start ws :
  start < len text ->
  window_loop (S fuel) s text start ws
  = window_loop fuel s text (window_end s text start - overlap s)
      (ws ++ [(start, window_end s text start)]).
Proof.
  intros H. cbn [window_loop].
  destruct (Z.ltb_spec start (len text)); [reflexivity | lia].
Qed.

Lemma window_loop_out start ws :
  start < len text -> window_loop 0 s text start ws = None.
Proof.
  intros H. simpl. destruct (Z.ltb_spec start (len text)); [reflexivity | lia].
Qed.

(** A loop whose cursor comes back to where it was never ends. *)
Lemma chunk_loop_stuck start :
  start < len text ->
  window_end s text start - overlap s = start ->
  forall fuel chunks, chunk_loop fuel s text start chunks = None.
Proof.
  intros Hlt Hback. induction fuel as [|fuel IH]; intros chunks.
  - apply chunk_loop_out, Hlt.
  - rewrite chunk_loop_step, Hback by exact Hlt. apply IH.
Qed.

(** The chunks are the trimmed texts of the windows. *)
Lemma chunk_loop_windows fuel : forall start ws,
  chunk_loop fuel s text start (map (window_text text) ws)
  = option_map (map (window_text text)) (window_loop fuel s text start ws).
Proof.
  induction fuel as [|fuel IH]; intros start ws;
    destruct (Z.lt_ge_cases start (len text)) as [Hlt | Hge].
  - rewrite chunk_loop_out, window_loop_out by exact Hlt. reflexivity.
  - rewrite chunk_loop_done, window_loop_done by exact Hge. reflexivity.
  - rewrite chunk_loop_step, window_loop_step by exact Hlt.
    rewrite <- IH, map_app. reflexivity.
  - rewrite chunk_loop_done, window_loop_done by exact Hge. reflexivity.
Qed.

(** The windows recorded are the ones given, then the ones cut. *)
Lemma window_loop_acc fuel : forall start ws,
  window_loop fuel s text start ws
  = option_map (app ws) (window_loop fuel s text start []).
Proof.
  induction fuel as [|fuel IH]; intros start ws;
    destruct (Z.lt_ge_cases start (len text)) as [Hlt | Hge].
  - rewrite !window_loop_out by exact Hlt. reflexivity.
  - rewrite !window_loop_done by exact Hge. simpl.
    rewrite app_nil_r. reflexivity.
  - rewrite !window_loop_step by exact Hlt.
    rewrite (IH _ (ws ++ _)), (IH _ ([] ++ _)).
    destruct (window_loop fuel s text _ []); simpl; [|reflexivity].
    rewrite <- app_assoc. reflexivity.
  - rewrite !window_loop_done by exact Hge. simpl.
    rewrite app_nil_r. reflexivity.
Qed.

Lemma window_loop_cons fuel start new :
  start < len text ->
  window_loop (S fuel) s text start [] = Some new ->
  exists rest,
    new = (start, window_end s text start) :: rest
    /\ window_loop fuel s text (window_end s text start - overlap s) []
       = Some rest.
Proof.
  intros Hlt. rewrite window_loop_step, window_loop_acc by exact Hlt.
  destruct (window_loop fuel s text _ []) as [rest|]; [|discriminate].
  intros [= <-]. exists rest. auto.
Qed.

(** Every window recorded ends where [window_end] says. *)
Lemma window_loop_ends fuel : forall start ws,
  window_loop fuel s text start [] = Some ws ->
  Forall (fun w => snd w = window_end s text (fst w)) ws.
Proof.
  induction fuel as [|fuel IH]; intros start ws Hrun;
    destruct (Z.lt_ge_cases start (len text)) as [Hlt | Hge];
    try (rewrite window_loop_done in Hrun by exact Hge;
         injection Hrun as <-; constructor).
  - rewrite window_loop_out in Hrun by exact Hlt. discriminate.
  - destruct (window_loop_cons fuel start ws Hlt Hrun)
      as (rest & -> & Hrest).
    constructor; [reflexivity | exact (IH _ _ Hrest)].
Qed.

(** What one iteration does to [end]. *)
Lemma window_end_cases start :
  window_end s text start = start + chunk_size s
  \/ (start + chunk_size s < len text
      /\ 0 < last_break (slice text (search_from s start)
                               (start + chunk_size s))
      /\ window_end s text start
         = search_from s start
           + last_break (slice text (search_from s start)
                               (start + chunk_size s)) + 1).
Proof.
  unfold window_end, search_from.
  destruct (Z.ltb_spec (start + chunk_size s) (len text)) as [Hlt|];
    [|left; reflexivity].
  destruct (Z.ltb_spec 0
              (last_break (slice text
                             (Z.max start (start + chunk_size s - 200))
                             (start + chunk_size s)))) as [Hpos|];
    [right; auto | left; reflexivity].
Qed.

Hypothesis overlap_small : overlap s < chunk_size s.
Hypothesis overlap_advancing : advancing s.

Lemma window_end_advances start :
  start < window_end s text start - overlap s.
Proof.
  pose proof overlap_small as Hsmall.
  pose proof overlap_advancing as Hadv. unfold advancing in Hadv.
  destruct (window_end_cases start) as [-> | (_ & Hpos & ->)];
    unfold search_from in *; lia.
Qed.

Lemma window_loop_terminates fuel : forall start,
  len text - start <= Z.of_nat fuel ->
  exists ws, window_loop fuel s text start [] = Some ws.
Proof.
  induction fuel as [|fuel IH]; intros start Hfuel;
    destruct (Z.lt_ge_cases start (len text)) as [Hlt | Hge];
    try (exists []; apply window_loop_done; exact Hge); [lia|].
  pose proof (window_end_advances start) as Hadv.
  destruct (IH (window_end s text start - overlap s) ltac:(lia))
    as (ws & Hws).
  rewrite window_loop_step, window_loop_acc, Hws by exact Hlt.
  eexists; reflexivity.
Qed.

End LoopFacts.

Section WindowFacts.

Variable s : TranscriptionSummarizer.
Variable text : str.
Hypothesis config_valid : valid_config s.
Hypothesis config_advancing : advancing s.

(** Invariant of the windows cut from cursor [start] on. *)
Lemma window_loop_invariant fuel : forall start new,
  0 <= start ->
  window_loop fuel s text start [] = Some new ->
  Forall (fun w => 0 <= fst w < snd w /\ fst w < len text) new
  /\ chained (overlap s) new
  /\ (forall w rest, new = w :: rest -> fst w = start)
  /\ (forall i, start <= i < len text -> Exists (in_window i) new).
Proof.
  induction fuel as [|fuel IH]; intros start new Hstart Hrun;
    destruct (Z.lt_ge_cases start (len text)) as [Hlt | Hge];
    try (rewrite window_loop_done in Hrun by exact Hge;
         injection Hrun as <-;
         repeat split; [constructor | intros ? ? [=] | intros; lia]).
  - rewrite window_loop_out in Hrun by exact Hlt. discriminate.
  - destruct (window_loop_cons s text fuel start new Hlt Hrun)
      as (rest & -> & Hrest).
    pose proof (window_end_advances s text (proj2 config_valid)
                  config_advancing start) as Hadv.
    pose proof (proj1 config_valid) as Hov.
    destruct (IH (window_end s text start - overlap s) rest
                ltac:(lia) Hrest) as (Hall & Hch & Hhd & Hcov).
    repeat split.
    + constructor; [simpl; lia | exact Hall].
    + destruct rest as [|w2 rest']; [exact I|].
      split; [apply (Hhd w2 rest' eq_refl) | exact Hch].
    + intros w rest' [= <- _]. reflexivity.
    + intros i Hi.
      destruct (Z.lt_ge_cases i (window_end s text start)) as [Hin | Hout].
      * apply Exists_cons_hd. unfold in_window. simpl. lia.
      * apply Exists_cons_tl, Hcov. lia.
Qed.

Lemma windows_exist :
  exists ws, window_loop (Z.to_nat (len text)) s text 0 [] = Some ws.
Proof.
  apply (window_loop_terminates s text (proj2 config_valid)
           config_advancing).
  unfold len. lia.
Qed.

End WindowFacts.

(** The chunks [chunk_text] returns on a long text are the trimmed texts
    of the windows its loop cuts. *)
Lemma chunk_text_windows fuel s text chunks :
  chunk_size s < len text ->
  chunk_text fuel s text = Some chunks ->
  exists ws, window_loop fuel s text 0 [] = Some ws
             /\ chunks = map (window_text text) ws.
Proof.
  intros Hlong. unfold chunk_text.
  destruct (Z.leb_spec (len text) (chunk_size s)); [lia|].
  change (@nil str) with (map (window_text text) []).
  rewrite chunk_loop_windows.
  destruct (window_loop fuel s text 0 []) as [ws|]; [|discriminate].
  intros [= <-]. exists ws. auto.
Qed.

Lemma chunk_text_of_windows fuel s text ws :
  chunk_size s < len text ->
  window_loop fuel s text 0 [] = Some ws ->
  chunk_text fuel s text = Some (map (window_text text) ws).
Proof.
  intros Hlong Hws. unfold chunk_text.
  destruct (Z.leb_spec (len text) (chunk_size s)); [lia|].
  change (@nil str) with (map (window_text text) []).
  rewrite chunk_loop_windows, Hws. reflexivity.
Qed.

(** The early return of [chunk_text]. *)
Lemma chunk_text_whole fuel s text :
  len text <= chunk_size s -> chunk_text fuel s text = Some [text].
Proof.
  intros Hshort. unfold chunk_text.
  destruct (Z.leb_spec (len text) (chunk_size s)); [reflexivity | lia].
Qed.

(** More iterations do not change what the loop returns. *)
Lemma chunk_loop_more_fuel s text fuel : forall start chunks out,
  chunk_loop fuel s text start chunks = Some out ->
  chunk_loop (S fuel) s text start chunks = Some out.
Proof.
  induction fuel as [|fuel IH]; intros start chunks out;
    destruct (Z.lt_ge_cases start (len text)) as [Hlt | Hge].
  - rewrite chunk_loop_out by exact Hlt. discriminate.
  - rewrite !chunk_loop_done by exact Hge. auto.
  - rewrite (chunk_loop_step s text (S fuel)) by exact Hlt.
    rewrite (chunk_loop_step s text fuel) by exact Hlt. apply IH.
  - rewrite !chunk_loop_done by exact Hge. auto.
Qed.

Lemma chunk_text_more_fuel s text chunks fuel : forall extra,
  chunk_text fuel s text = Some chunks ->
  chunk_text (extra + fuel) s text = Some chunks.
Proof.
  induction extra as [|extra IH]; intros Hrun; [exact Hrun|].
  specialize (IH Hrun). unfold chunk_text in *.
  destruct (len text <=? chunk_size s); [exact IH|].
  apply chunk_loop_more_fuel, IH.
Qed.

(** [chunk_text] returns at most one list of chunks. *)
Lemma returns_unique s text chunks1 chunks2 :
  returns s text chunks1 -> returns s text chunks2 -> chunks1 = chunks2.
Proof.
  intros [fuel1 H1] [fuel2 H2].
  apply (chunk_text_more_fuel _ _ _ _ fuel2) in H1.
  apply (chunk_text_more_fuel _ _ _ _ fuel1) in H2.
  rewrite Nat.add_comm, H1 in H2. injection H2 as H2. exact H2.
Qed.

(** A stuck first iteration makes [chunk_text] diverge. *)
Lemma chunk_text_stuck s text :
  chunk_size s < len text ->
  0 < len text ->
  window_end s text 0 - overlap s = 0 ->
  diverges s text.
Proof.
  intros Hlong Hpos Hback fuel. unfold chunk_text.
  destruct (Z.leb_spec (len text) (chunk_size s)); [lia|].
  apply chunk_loop_stuck; [exact Hpos | exact Hback].
Qed.

(** With an overlap that lets the cursor advance, [len(text)] iterations
    are enough. *)
Lemma chunk_text_total s text :
  overlap s < chunk_size s ->
  advancing s ->
  exists chunks, returns s text chunks.
Proof.
  intros Hsmall Hadv.
  destruct (Z.le_gt_cases (len text) (chunk_size s)) as [Hshort | Hlong].
  - exists [text], 0%nat. apply chunk_text_whole, Hshort.
  - destruct (window_loop_terminates s text Hsmall Hadv
                (Z.to_nat (len text)) 0) as (ws & Hws);
      [unfold len; lia|].
    exists (map (window_text text) ws), (Z.to_nat (len text)).
    apply chunk_text_of_windows; [lia | exact Hws].
Qed.

(** ** The splitter, claim by claim *)

(** Closed comparisons of integers, settled by evaluation. *)
Ltac evaluate :=
  vm_compute; repeat split; solve [reflexivity | discriminate].

(** C2, as the code has it: the constructor takes no sizes and cannot
    fail; it fixes [chunk_size = 6000] and [overlap = 500], so every
    summarizer it builds has an overlap below the chunk size, small enough
    for the loop of [chunk_text] to advance, and [chunk_text] returns on
    every text. *)
Theorem init_sizes_fixed : forall model url,
  chunk_size (__init__ model url) = 6000
  /\ overlap (__init__ model url) = 500
  /\ valid_config (__init__ model url)
  /\ advancing (__init__ model url)
  /\ forall text, exists chunks, returns (__init__ model url) text chunks.
Proof.
  intros model url.
  assert (Hvalid : valid_config (__init__ model url))
    by (unfold valid_config; simpl; lia).
  assert (Hadv : advancing (__init__ model url))
    by (unfold advancing; simpl; lia).
  repeat split; try reflexivity; try exact Hadv; try apply Hvalid.
  intros text. exact (chunk_text_total _ text (proj2 Hvalid) Hadv).
Qed.

(** C2 fails as stated: a summarizer whose overlap equals its chunk size
    is built without any error (the constructor, then two attribute
    assignments), and [chunk_text] on it enters its loop and never
    leaves it. *)
Lemma overlap_not_checked :
  equal_sizes = with_sizes (__init__ (lit "gpt-oss:120b")
                                     (lit "http://localhost:11434"))
                           6000 6000
  /\ chunk_size equal_sizes <= overlap equal_sizes
  /\ window_end equal_sizes plain_text 0 - overlap equal_sizes = 0
  /\ diverges equal_sizes plain_text.
Proof.
  assert (Hback : window_end equal_sizes plain_text 0
                  - overlap equal_sizes = 0)
    by (vm_compute; reflexivity).
  split; [reflexivity|]. split; [simpl; lia|]. split; [exact Hback|].
  apply chunk_text_stuck; [vm_compute; reflexivity .. | exact Hback].
Qed.

(** C4, as the code has it: a text no longer than [chunk_size] comes back
    as the only segment, unchanged (its surrounding whitespace is kept). *)
Theorem chunk_text_short : forall fuel s text,
  len text <= chunk_size s ->
  chunk_text fuel s text = Some [text].
Proof.
  intros fuel s text Hshort. apply chunk_text_whole, Hshort.
Qed.

Lemma chunk_text_short_witness :
  len (lit " a") <= chunk_size main_summarizer
  /\ chunk_text 0 main_summarizer (lit " a") = Some [lit " a"].
Proof.
  split; [evaluate|].
  apply chunk_text_short. evaluate.
Defined.

(** C4 fails as stated: the short text [" a"] is returned with its
    leading blank, not trimmed to ["a"]. *)
Lemma chunk_text_short_untrimmed :
  len (lit " a") <= chunk_size main_summarizer
  /\ strip (lit " a") = lit "a"
  /\ returns main_summarizer (lit " a") [lit " a"]
  /\ ~ returns main_summarizer (lit " a") [strip (lit " a")].
Proof.
  split; [evaluate|]. split; [reflexivity|]. split.
  - exists 0%nat. reflexivity.
  - intros [fuel H]. vm_compute in H. discriminate H.
Qed.

(** C6, as the code has it: when the overlap is below the chunk size and
    also below [max(chunk_size - 200, 0) + 2], the least a window cut at a
    sentence ending can measure, the loop ends on every text and
    [chunk_text] returns. *)
Theorem chunk_text_terminates : forall s text,
  overlap s < chunk_size s ->
  advancing s ->
  exists chunks, returns s text chunks.
Proof.
  intros s text Hsmall Hadv. exact (chunk_text_total s text Hsmall Hadv).
Qed.

Lemma chunk_text_terminates_witness :
  overlap main_summarizer < chunk_size main_summarizer
  /\ advancing main_summarizer
  /\ exists chunks, returns main_summarizer stop_at_5800 chunks.
Proof.
  assert (H1 : overlap main_summarizer < chunk_size main_summarizer)
    by (simpl; lia).
  assert (H2 : advancing main_summarizer)
    by (unfold advancing; simpl; lia).
  split; [exact H1|]. split; [exact H2|].
  exact (chunk_text_terminates main_summarizer stop_at_5800 H1 H2).
Defined.

(** C6 fails as stated: with [chunk_size = 4] and [overlap = 2] the text
    ["a.aaa"] is cut after its full stop, the cursor comes back to 0 and
    the loop never ends. *)
Lemma chunk_text_loops :
  0 <= overlap stuck_summarizer < chunk_size stuck_summarizer
  /\ window_end stuck_summarizer stuck_text 0 = 2
  /\ diverges stuck_summarizer stuck_text.
Proof.
  split; [simpl; lia|]. split; [reflexivity|].
  apply chunk_text_stuck; reflexivity.
Qed.

(** C5, as the code has it: under a valid configuration whose overlap is
    also below [max(chunk_size - 200, 0) + 2], [chunk_text] on a text
    longer than [chunk_size] returns the trimmed texts of windows that
    start at 0, each next one [overlap] characters before the end of the
    one before, and every index of the text lies in one of them. *)
Theorem chunk_text_covers : forall s text,
  valid_config s ->
  advancing s ->
  chunk_size s < len text ->
  exists ws,
    windows_of s text ws
    /\ returns s text (map (window_text text) ws)
    /\ (exists w rest, ws = w :: rest /\ fst w = 0)
    /\ chained (overlap s) ws
    /\ covers text ws.
Proof.
  intros s text Hvalid Hadv Hlong.
  destruct (windows_exist s text Hvalid Hadv) as (ws & Hws).
  destruct (window_loop_invariant s text Hvalid Hadv _ 0 ws
              ltac:(lia) Hws) as (_ & Hch & Hhd & Hcov).
  exists ws. split; [eexists; exact Hws|].
  split; [eexists; apply chunk_text_of_windows; [exact Hlong | exact Hws]|].
  split.
  - destruct ws as [|w rest].
    + assert (Hpos : 0 <= 0 < len text)
        by (destruct Hvalid; unfold len in *; lia).
      specialize (Hcov 0 Hpos). inversion Hcov.
    + exists w, rest. split; [reflexivity | apply (Hhd w rest eq_refl)].
  - split; [exact Hch|].
    intros i Hi. apply Hcov. lia.
Qed.

Lemma chunk_text_covers_witness :
  valid_config main_summarizer
  /\ advancing main_summarizer
  /\ chunk_size main_summarizer < len stop_at_5800
  /\ exists ws,
      windows_of main_summarizer stop_at_5800 ws
      /\ returns main_summarizer stop_at_5800
                 (map (window_text stop_at_5800) ws)
      /\ (exists w rest, ws = w :: rest /\ fst w = 0)
      /\ chained (overlap main_summarizer) ws
      /\ covers stop_at_5800 ws.
Proof.
  assert (H1 : valid_config main_summarizer)
    by (unfold valid_config; simpl; lia).
  assert (H2 : advancing main_summarizer)
    by (unfold advancing; simpl; lia).
  assert (H3 : chunk_size main_summarizer < len stop_at_5800)
    by (vm_compute; reflexivity).
  split; [exact H1|]. split; [exact H2|]. split; [exact H3|].
  exact (chunk_text_covers main_summarizer stop_at_5800 H1 H2 H3).
Defined.

(** C5 fails as stated: with [chunk_size = 10] and [overlap = 4], a valid
    configuration, the first window is cut after the full stop at index 1,
    the cursor moves back to -2 and then on to 4: the characters at
    indices 2 and 3 lie in no window and in no returned segment. *)
Lemma chunk_text_gap :
  valid_config gap_summarizer
  /\ chunk_size gap_summarizer < len gap_text
  /\ windows_of gap_summarizer gap_text
       [(0, 2); (-2, 8); (4, 14); (10, 20); (16, 26); (22, 32); (28, 38)]
  /\ returns gap_summarizer gap_text
       [lit "a."; lit ""; lit "aaaaaaaaaa"; lit "aaaaaaaaaa";
        lit "aaaaaaaaaa"; lit "aaaaaaaa"; lit "aa"]
  /\ ~ covers gap_text
       [(0, 2); (-2, 8); (4, 14); (10, 20); (16, 26); (22, 32); (28, 38)]
  /\ slice gap_text 2 4 = lit "XY".
Proof.
  split; [unfold valid_config; simpl; lia|].
  split; [vm_compute; reflexivity|].
  split; [exists 7%nat; vm_compute; reflexivity|].
  split; [exists 7%nat; vm_compute; reflexivity|].
  split; [|reflexivity].
  intros Hcov.
  assert (H2 : 0 <= 2 < len gap_text) by evaluate.
  specialize (Hcov 2 H2).
  repeat match goal with
         | H : Exists _ (_ :: _) |- _ => inversion H; subst; clear H
         | H : Exists _ [] |- _ => inversion H
         | H : in_window _ _ |- _ => unfold in_window in H; simpl in H; lia
         end.
Qed.

(** C7, as the code has it: under a valid configuration whose overlap is
    also below [max(chunk_size - 200, 0) + 2], the segment at position [i]
    is empty only when the text is empty or when the window the loop cut at
    position [i], of which the segment is the trimmed text, is a non-empty
    window made of whitespace alone. *)
Theorem chunk_text_empty_segment : forall s text chunks i c,
  valid_config s ->
  advancing s ->
  returns s text chunks ->
  nth_error chunks i = Some c ->
  c = [] ->
  text = []
  \/ (chunk_size s < len text
      /\ exists ws a b,
          windows_of s text ws
          /\ chunks = map (window_text text) ws
          /\ nth_error ws i = Some (a, b)
          /\ b = window_end s text a
          /\ 0 <= a < b /\ a < len text
          /\ c = strip (slice text a b)
          /\ slice text a b <> []
          /\ forallb isspace (slice text a b) = true).
Proof.
  intros s text chunks i c Hvalid Hadv [fuel Hrun] Hnth Hnil.
  destruct (Z.le_gt_cases (len text) (chunk_size s)) as [Hshort | Hlong].
  - rewrite (chunk_text_whole fuel s text Hshort) in Hrun.
    injection Hrun as <-. left.
    destruct i as [|i]; simpl in Hnth; [|destruct i; discriminate].
    injection Hnth as ->. exact Hnil.
  - right. split; [lia|].
    destruct (chunk_text_windows fuel s text chunks ltac:(lia) Hrun)
      as (ws & Hws & ->).
    rewrite nth_error_map in Hnth.
    destruct (nth_error ws i) as [[a b]|] eqn:Hw; [|discriminate].
    injection Hnth as Hc. unfold window_text in Hc. simpl in Hc.
    pose proof (nth_error_In ws i Hw) as Hin.
    destruct (window_loop_invariant s text Hvalid Hadv fuel 0 ws
                ltac:(lia) Hws) as (Hall & _).
    pose proof (window_loop_ends s text fuel 0 ws Hws) as Hends.
    rewrite Forall_forall in Hall, Hends.
    specialize (Hall _ Hin). specialize (Hends _ Hin). simpl in Hall, Hends.
    exists ws, a, b.
    split; [exists fuel; exact Hws|]. split; [reflexivity|].
    split; [exact Hw|]. split; [exact Hends|].
    split; [lia|]. split; [lia|]. split; [symmetry; exact Hc|].
    split; [apply slice_nonempty; lia|].
    apply strip_nil. rewrite Hc. exact Hnil.
Qed.

Lemma chunk_text_empty_segment_witness :
  valid_config main_summarizer
  /\ advancing main_summarizer
  /\ returns main_summarizer blank_text [[]; []]
  /\ nth_error [@nil char; []] 1 = Some []
  /\ (blank_text = []
      \/ (chunk_size main_summarizer < len blank_text
          /\ exists ws a b,
              windows_of main_summarizer blank_text ws
              /\ [@nil char; []] = map (window_text blank_text) ws
              /\ nth_error ws 1 = Some (a, b)
              /\ b = window_end main_summarizer blank_text a
              /\ 0 <= a < b /\ a < len blank_text
              /\ [] = strip (slice blank_text a b)
              /\ slice blank_text a b <> []
              /\ forallb isspace (slice blank_text a b) = true)).
Proof.
  assert (H1 : valid_config main_summarizer)
    by (unfold valid_config; simpl; lia).
  assert (H2 : advancing main_summarizer)
    by (unfold advancing; simpl; lia).
  assert (H3 : returns main_summarizer blank_text [[]; []])
    by (exists 2%nat; vm_compute; reflexivity).
  assert (H4 : nth_error [@nil char; []] 1 = Some []) by reflexivity.
  split; [exact H1|]. split; [exact H2|]. split; [exact H3|].
  split; [exact H4|].
  exact (chunk_text_empty_segment main_summarizer blank_text [[]; []]
           1%nat [] H1 H2 H3 H4 eq_refl).
Defined.

(** C7 fails as stated: under the configuration of the constructor, a
    text of 6001 blanks is split into two empty segments, and the empty
    text into one.  Under the valid configuration [chunk_size = 10],
    [overlap = 4], where the cursor moves back below 0, a text without any
    whitespace has an empty segment too. *)
Lemma chunk_text_blank_segments :
  (valid_config main_summarizer
   /\ returns main_summarizer blank_text [[]; []]
   /\ In [] [@nil char; []]
   /\ returns main_summarizer [] [[]])
  /\ (valid_config gap_summarizer
      /\ existsb isspace gap_text = false
      /\ returns gap_summarizer gap_text
           [lit "a."; []; lit "aaaaaaaaaa"; lit "aaaaaaaaaa";
            lit "aaaaaaaaaa"; lit "aaaaaaaa"; lit "aa"]).
Proof.
  split.
  - split; [unfold valid_config; simpl; lia|].
    split; [exists 2%nat; vm_compute; reflexivity|].
    split; [left; reflexivity|].
    exists 0%nat. reflexivity.
  - split; [unfold valid_config; simpl; lia|].
    split; [reflexivity|].
    exists 7%nat. vm_compute. reflexivity.
Qed.

(** C8, as the code has it: for a window that ends before the end of the
    text, the region searched is the last 200 characters of the window
    (all of it when [chunk_size] is smaller), positions being counted from
    the start of that region, so that a sentence ending at position [p]
    of the region is one at index [search_from + p] of the text.  When the
    last sentence ending of the region starts at a position [p > 0], the
    window is cut one character after [p], which shortens it; when no
    sentence ending starts after position 0 of the region, the window
    keeps its [chunk_size] characters. *)
Theorem window_end_sentence_ending : forall s text start,
  0 <= start ->
  0 <= chunk_size s ->
  start + chunk_size s < len text ->
  let region := slice text (search_from s start) (start + chunk_size s) in
  len region = Z.min 200 (chunk_size s)
  /\ window_end s text start <= start + chunk_size s
  /\ (forall p, marker_at region p ->
                marker_at text (search_from s start + p))
  /\ (forall p, marker_at region p ->
                (forall q, marker_at region q -> q <= p) ->
                0 < p ->
                window_end s text start = search_from s start + p + 1)
  /\ ((forall p, marker_at region p -> p <= 0) ->
      window_end s text start = start + chunk_size s).
Proof.
  intros s text start Hstart Hsize Hend region.
  assert (Hwe : window_end s text start
                = if 0 <? last_break region
                  then search_from s start + last_break region + 1
                  else start + chunk_size s).
  { unfold window_end, region, search_from.
    destruct (Z.ltb_spec (start + chunk_size s) (len text)); [|lia].
    reflexivity. }
  assert (Hlen : len region = Z.min 200 (chunk_size s))
    by (unfold region, search_from; rewrite slice_length by lia; lia).
  split; [exact Hlen|]. split; [|split; [|split]].
  - pose proof (last_break_bound region) as Hbound.
    rewrite Hwe. unfold search_from.
    destruct (Z.ltb_spec 0 (last_break region)); lia.
  - intros p (e & He & Hp & Hocc).
    exists e. split; [exact He|].
    assert (Hfrom : 0 <= search_from s start <= len text)
      by (unfold search_from; lia).
    split; [lia|].
    rewrite Z2Nat.inj_add by lia.
    exact (occurs_slice text _ _ e _ Hfrom Hocc).
  - intros p Hp Hmax Hpos.
    pose proof (last_break_upper region p Hp) as Hle.
    pose proof (Hmax _ (last_break_marker region ltac:(lia))) as Hge.
    rewrite Hwe. destruct (Z.ltb_spec 0 (last_break region)); lia.
  - intros Hnone. rewrite Hwe.
    destruct (Z.ltb_spec 0 (last_break region)) as [Hpos|]; [|reflexivity].
    pose proof (Hnone _ (last_break_marker region ltac:(lia))). lia.
Qed.

Lemma window_end_sentence_ending_witness :
  0 <= 0
  /\ 0 <= chunk_size main_summarizer
  /\ 0 + chunk_size main_summarizer < len stop_at_5900
  /\ (let region := slice stop_at_5900 (search_from main_summarizer 0)
                          (0 + chunk_size main_summarizer) in
      len region = Z.min 200 (chunk_size main_summarizer)
      /\ window_end main_summarizer stop_at_5900 0
         <= 0 + chunk_size main_summarizer
      /\ (forall p, marker_at region p ->
                    marker_at stop_at_5900 (search_from main_summarizer 0 + p))
      /\ (forall p, marker_at region p ->
                    (forall q, marker_at region q -> q <= p) ->
                    0 < p ->
                    window_end main_summarizer stop_at_5900 0
                    = search_from main_summarizer 0 + p + 1)
      /\ ((forall p, marker_at region p -> p <= 0) ->
          window_end main_summarizer stop_at_5900 0
          = 0 + chunk_size main_summarizer)).
Proof.
  assert (H1 : 0 <= 0) by lia.
  assert (H2 : 0 <= chunk_size main_summarizer) by (simpl; lia).
  assert (H3 : 0 + chunk_size main_summarizer < len stop_at_5900)
    by (vm_compute; reflexivity).
  split; [exact H1|]. split; [exact H2|]. split; [exact H3|].
  exact (window_end_sentence_ending main_summarizer stop_at_5900 0
           H1 H2 H3).
Defined.

(** C8 fails as stated.  Under the configuration of the constructor the
    first window is [0, 6000) and the region searched starts at 5800.  A
    full stop at index 5800, after the window start and the only sentence
    ending of the last 200 characters, is passed over: the window is cut
    at 6000, not at 5801.  A blank-line break at indices 5900 and 5901
    cuts the window at 5901, between its two line feeds, not after it. *)
Lemma window_end_ignores_region_start :
  (0 + chunk_size main_summarizer < len stop_at_5800
   /\ occurs stop_at_5800 (lit ".") (Z.to_nat 5800) = true
   /\ 0 < 5800
   /\ 0 + chunk_size main_summarizer - 200 <= 5800
      < 0 + chunk_size main_summarizer
   /\ last_break (slice stop_at_5800 5800 6000) = 0
   /\ window_end main_summarizer stop_at_5800 0 = 6000)
  /\ (0 + chunk_size main_summarizer < len blank_line_at_5900
      /\ occurs blank_line_at_5900 [10%N; 10%N] (Z.to_nat 5900) = true
      /\ last_break (slice blank_line_at_5900 5800 6000) = 100
      /\ window_end main_summarizer blank_line_at_5900 0 = 5901
      /\ 5901 <> 5900 + len [10%N; 10%N]).
Proof.
  split.
  - split; [evaluate|]. split; [vm_compute; reflexivity|].
    split; [lia|]. split; [evaluate|].
    split; vm_compute; reflexivity.
  - split; [evaluate|]. split; [vm_compute; reflexivity|].
    split; [vm_compute; reflexivity|].
    split; [vm_compute; reflexivity|]. evaluate.
Qed.

(** ** The reducer *)

Section ReducerFacts.

Variable generate : nat -> request -> option str.
Variable json_loads : str -> option pyval.
Variable s : TranscriptionSummarizer.

Lemma call_ollama_run prompt l :
  call_ollama generate s prompt None l
  = (Ok (generate (List.length l) (request_for s prompt)),
     l ++ [request_for s prompt]).
Proof. reflexivity. Qed.

Lemma answers_length chunks : forall n,
  List.length (answers generate s n chunks) = List.length chunks.
Proof.
  induction chunks as [|c chunks IH]; intros n; simpl;
    [reflexivity | rewrite IH; reflexivity].
Qed.

(** The loop sends one request per chunk, in order, and keeps the
    answers that are non-empty texts. *)
Lemma summarize_each_run chunks : forall acc l,
  summarize_each generate s chunks acc l
  = (Ok (acc ++ kept (answers generate s (List.length l) chunks)),
     l ++ map (partial_request s) chunks).
Proof.
  induction chunks as [|c chunks IH]; intros acc l.
  - simpl. unfold ret. rewrite !app_nil_r. reflexivity.
  - cbn [summarize_each]. unfold bind, summarize_chunk.
    rewrite call_ollama_run, IH.
    rewrite length_app, Nat.add_1_r. cbn [answers map].
    fold (partial_request s c).
    rewrite <- app_assoc. f_equal. f_equal.
    destruct (generate (List.length l) (partial_request s c))
      as [[|x t]|]; simpl; rewrite <- ?app_assoc, ?app_nil_r; reflexivity.
Qed.

(** With more than one chunk, the combine call follows the calls of the
    chunks, whatever these answered. *)
Lemma file_summary_many chunks l :
  (1 < List.length chunks)%nat ->
  file_summary generate s chunks l
  = (Ok (generate (List.length l + List.length chunks)
                  (combine_request s
                     (kept (answers generate s (List.length l) chunks)))),
     l ++ map (partial_request s) chunks
       ++ [combine_request s
             (kept (answers generate s (List.length l) chunks))]).
Proof.
  intros Hmany.
  assert (Hrun : file_summary generate s chunks l
                 = bind (summarize_each generate s chunks [])
                        (combine_summaries generate s) l)
    by (destruct chunks as [|c1 [|c2 rest]]; simpl in Hmany;
        [lia | lia | reflexivity]).
  rewrite Hrun. unfold bind. rewrite summarize_each_run.
  unfold combine_summaries. rewrite call_ollama_run.
  rewrite length_app, length_map, <- app_assoc. reflexivity.
Qed.

(** A document whose summary was organized is not marked failed. *)
Lemma organized_not_failed summary metadata l :
  ~ failed (bind (organize_summary generate json_loads s summary metadata)
                 (fun organized => ret (Some organized)) l).
Proof.
  unfold failed, bind.
  destruct (organize_summary generate json_loads s summary metadata l)
    as [[organized | e] l']; simpl; discriminate.
Qed.

(** The document is marked failed exactly when the summary is [None] or
    empty. *)
Lemma process_chunks_failed metadata chunks l answer l' :
  file_summary generate s chunks l = (Ok answer, l') ->
  failed (process_chunks generate json_loads s metadata chunks l)
  <-> truthy answer = false.
Proof.
  intros Hrun. unfold process_chunks.
  unfold bind at 1. rewrite Hrun.
  destruct answer as [[|c t]|]; simpl.
  - split; reflexivity.
  - split; [|discriminate].
    intros H. exfalso. exact (organized_not_failed _ _ _ H).
  - split; reflexivity.
Qed.

Lemma kept_failures rs : Forall (fun r => r = None) rs -> kept rs = [].
Proof.
  induction 1 as [|r rs -> _ IH]; simpl; [reflexivity | exact IH].
Qed.

Lemma kept_successes ts :
  Forall (fun t => t <> []) ts -> kept (map Some ts) = ts.
Proof.
  unfold kept.
  induction 1 as [|t ts Ht _ IH]; simpl; [reflexivity|].
  destruct t as [|x t']; [contradiction|]. rewrite IH. reflexivity.
Qed.

Lemma kept_app rs1 rs2 : kept (rs1 ++ rs2) = kept rs1 ++ kept rs2.
Proof. apply flat_map_app. Qed.

End ReducerFacts.

(** C1, as the code has it: with more than one segment whose calls all
    fail, the combine call is still made, once, after the calls of the
    segments and with no partial summary at all (the joined text is
    empty); the document is marked failed exactly when that call too
    returns [None] or an empty text. *)
Theorem all_segments_fail : forall generate json_loads s metadata chunks l,
  (1 < List.length chunks)%nat ->
  Forall (fun r => r = None) (answers generate s (List.length l) chunks) ->
  let answer := generate (List.length l + List.length chunks)%nat
                         (combine_request s []) in
  join Prompt.separator [] = []
  /\ file_summary generate s chunks l
     = (Ok answer,
        l ++ map (partial_request s) chunks ++ [combine_request s []])
  /\ (failed (process_chunks generate json_loads s metadata chunks l)
      <-> truthy answer = false).
Proof.
  intros generate json_loads s metadata chunks l Hmany Hfail answer.
  pose proof (file_summary_many generate s chunks l Hmany) as Hrun.
  rewrite (kept_failures _ Hfail) in Hrun.
  split; [reflexivity|]. split; [exact Hrun|].
  exact (process_chunks_failed generate json_loads s metadata chunks l
           _ _ Hrun).
Qed.

Lemma all_segments_fail_witness :
  (1 < List.length [lit "a"; lit "b"])%nat
  /\ Forall (fun r => r = None)
            (answers (only_call 2 (lit "S")) main_summarizer
                     (List.length (@nil request)) [lit "a"; lit "b"])
  /\ file_summary (only_call 2 (lit "S")) main_summarizer
                  [lit "a"; lit "b"] []
     = (Ok (Some (lit "S")),
        [partial_request main_summarizer (lit "a");
         partial_request main_summarizer (lit "b");
         combine_request main_summarizer []]).
Proof.
  assert (H1 : (1 < List.length [lit "a"; lit "b"])%nat) by (simpl; lia).
  assert (H2 : Forall (fun r => r = None)
                 (answers (only_call 2 (lit "S")) main_summarizer
                    (List.length (@nil request)) [lit "a"; lit "b"]))
    by (repeat constructor).
  split; [exact H1|]. split; [exact H2|].
  exact (proj1 (proj2 (all_segments_fail (only_call 2 (lit "S"))
                         loads_literals main_summarizer sample_metadata
                         [lit "a"; lit "b"] [] H1 H2))).
Defined.

(** C1 fails as stated: with two segments whose calls both fail and a
    service that answers the third call, the combine request is sent and
    the document is not marked failed. *)
Lemma all_segments_fail_document_kept :
  Forall (fun r => r = None)
         (answers (only_call 2 (lit "S")) main_summarizer 0
                  [lit "a"; lit "b"])
  /\ nth_error (snd (process_chunks (only_call 2 (lit "S")) loads_literals
                       main_summarizer sample_metadata
                       [lit "a"; lit "b"] [])) 2
     = Some (combine_request main_summarizer [])
  /\ fst (process_chunks (only_call 2 (lit "S")) loads_literals
            main_summarizer sample_metadata [lit "a"; lit "b"] [])
     = Ok (Some (fallback_record (lit "S") sample_metadata))
  /\ ~ failed (process_chunks (only_call 2 (lit "S")) loads_literals
                 main_summarizer sample_metadata [lit "a"; lit "b"] []).
Proof.
  split; [repeat constructor|]. split; [vm_compute; reflexivity|].
  assert (Hrun : fst (process_chunks (only_call 2 (lit "S")) loads_literals
                        main_summarizer sample_metadata
                        [lit "a"; lit "b"] [])
                 = Ok (Some (fallback_record (lit "S") sample_metadata)))
    by (vm_compute; reflexivity).
  split; [exact Hrun|].
  unfold failed. rewrite Hrun. discriminate.
Qed.

(** C9, as the code has it: with more than one segment, one call that
    fails and the others answering non-empty texts, the combine call is
    made once, after the calls of the segments, with the N-1 answers kept,
    in segment order, joined by the separator; the document is marked
    failed exactly when the combine call returns [None] or an empty
    text. *)
Theorem one_segment_fails :
  forall generate json_loads s metadata chunks l ts1 ts2,
  (1 < List.length chunks)%nat ->
  answers generate s (List.length l) chunks
  = map Some ts1 ++ None :: map Some ts2 ->
  Forall (fun t => t <> []) (ts1 ++ ts2) ->
  let survivors := ts1 ++ ts2 in
  let answer := generate (List.length l + List.length chunks)%nat
                         (combine_request s survivors) in
  List.length survivors = (List.length chunks - 1)%nat
  /\ req_prompt (combine_request s survivors)
     = Prompt.combine (join Prompt.separator survivors)
  /\ file_summary generate s chunks l
     = (Ok answer,
        l ++ map (partial_request s) chunks
          ++ [combine_request s survivors])
  /\ (failed (process_chunks generate json_loads s metadata chunks l)
      <-> truthy answer = false).
Proof.
  intros generate json_loads s metadata chunks l ts1 ts2
         Hmany Hanswers Hfull survivors answer.
  pose proof (file_summary_many generate s chunks l Hmany) as Hrun.
  apply Forall_app in Hfull. destruct Hfull as [Hfull1 Hfull2].
  assert (Hkept : kept (answers generate s (List.length l) chunks)
                  = survivors).
  { rewrite Hanswers, kept_app. simpl.
    rewrite !kept_successes by assumption. reflexivity. }
  rewrite Hkept in Hrun.
  split; [|split; [reflexivity | split; [exact Hrun|]]].
  - pose proof (answers_length generate s chunks (List.length l)) as Hlen.
    rewrite Hanswers, length_app in Hlen. simpl in Hlen.
    rewrite !length_map in Hlen.
    unfold survivors. rewrite length_app. lia.
  - exact (process_chunks_failed generate json_loads s metadata chunks l
             _ _ Hrun).
Qed.

Lemma one_segment_fails_witness :
  (1 < List.length [lit "a"; lit "b"; lit "c"])%nat
  /\ answers (fun k _ => if Nat.eqb k 1 then None else Some (lit "S"))
             main_summarizer (List.length (@nil request))
             [lit "a"; lit "b"; lit "c"]
     = map Some [lit "S"] ++ None :: map Some [lit "S"]
  /\ Forall (fun t => t <> []) ([lit "S"] ++ [lit "S"])
  /\ file_summary (fun k _ => if Nat.eqb k 1 then None else Some (lit "S"))
                  main_summarizer [lit "a"; lit "b"; lit "c"] []
     = (Ok (Some (lit "S")),
        [partial_request main_summarizer (lit "a");
         partial_request main_summarizer (lit "b");
         partial_request main_summarizer (lit "c");
         combine_request main_summarizer [lit "S"; lit "S"]]).
Proof.
  assert (H1 : (1 < List.length [lit "a"; lit "b"; lit "c"])%nat)
    by (simpl; lia).
  assert (H2 : answers
                 (fun k _ => if Nat.eqb k 1 then None else Some (lit "S"))
                 main_summarizer (List.length (@nil request))
                 [lit "a"; lit "b"; lit "c"]
               = map Some [lit "S"] ++ None :: map Some [lit "S"])
    by reflexivity.
  assert (H3 : Forall (fun t : str => t <> []) ([lit "S"] ++ [lit "S"]))
    by (repeat constructor; discriminate).
  split; [exact H1|]. split; [exact H2|]. split; [exact H3|].
  exact (proj1 (proj2 (proj2
           (one_segment_fails
              (fun k _ => if Nat.eqb k 1 then None else Some (lit "S"))
              loads_literals main_summarizer sample_metadata
              [lit "a"; lit "b"; lit "c"] [] [lit "S"] [lit "S"]
              H1 H2 H3)))).
Defined.

(** C9 fails as stated.  With two segments, the first call failing and
    the second answering ["S"], a combine call that fails marks the
    document failed.  With three segments, the first call failing and the
    second answering the empty text, the combine call receives one
    partial summary, not two. *)
Lemma one_segment_fails_document_lost :
  (answers (only_call 1 (lit "S")) main_summarizer 0 [lit "a"; lit "b"]
   = [None; Some (lit "S")]
   /\ failed (process_chunks (only_call 1 (lit "S")) loads_literals
                main_summarizer sample_metadata [lit "a"; lit "b"] []))
  /\ (answers empty_answer main_summarizer 0 [lit "a"; lit "b"; lit "c"]
      = [None; Some []; Some (lit "B")]
      /\ nth_error (snd (file_summary empty_answer main_summarizer
                           [lit "a"; lit "b"; lit "c"] [])) 3
         = Some (combine_request main_summarizer [lit "B"])
      /\ combine_request main_summarizer [lit "B"]
         <> combine_request main_summarizer [[]; lit "B"]).
Proof.
  split; [split; [reflexivity | vm_compute; reflexivity]|].
  split; [reflexivity|]. split; [vm_compute; reflexivity|].
  intros H. apply (f_equal req_prompt) in H. vm_compute in H.
  discriminate H.
Qed.

(** ** The structurer *)

(** C3: when the answer of the service is not parseable as JSON (the call
    failed, or [json.loads] raises on the text), [organize_summary] sends
    its one request and returns, without raising, the fallback record
    [title], [date], [raw_summary] with [metadata] and [summary]
    attached. *)
Theorem organize_summary_fallback :
  forall generate json_loads s summary metadata l,
  try_loads json_loads
            (generate (List.length l) (organize_request s summary metadata))
  = None ->
  organize_summary generate json_loads s summary metadata l
  = (Ok (VDict [(lit "title", VStr (title metadata));
                (lit "date", VStr (date metadata));
                (lit "raw_summary", VStr summary);
                (lit "metadata", metadata_dict metadata);
                (lit "summary", VStr summary)]),
     l ++ [organize_request s summary metadata]).
Proof.
  intros generate json_loads s summary metadata l Hparse.
  unfold organize_summary. unfold bind at 1.
  rewrite call_ollama_run.
  fold (organize_request s summary metadata). rewrite Hparse.
  reflexivity.
Qed.

Lemma organize_summary_fallback_witness :
  try_loads loads_literals
            (only_call 0 (lit "not json at all")
               (List.length (@nil request))
               (organize_request main_summarizer (lit "S") sample_metadata))
  = None
  /\ organize_summary (only_call 0 (lit "not json at all")) loads_literals
                      main_summarizer (lit "S") sample_metadata []
     = (Ok (VDict [(lit "title", VStr (lit "standup"));
                   (lit "date", VStr (lit "2024-10-14_11-01-16"));
                   (lit "raw_summary", VStr (lit "S"));
                   (lit "metadata", metadata_dict sample_metadata);
                   (lit "summary", VStr (lit "S"))]),
        [organize_request main_summarizer (lit "S") sample_metadata]).
Proof.
  assert (H : try_loads loads_literals
                (only_call 0 (lit "not json at all")
                   (List.length (@nil request))
                   (organize_request main_summarizer (lit "S")
                                     sample_metadata))
              = None) by reflexivity.
  split; [exact H|].
  exact (organize_summary_fallback (only_call 0 (lit "not json at all"))
           loads_literals main_summarizer (lit "S") sample_metadata [] H).
Defined.

(** C10: when the answer of the service parses as JSON but not as a JSON
    object, [organize_summary] raises [TypeError] where it attaches
    [metadata]: the exception is not caught, and neither the parsed value
    nor the fallback record is returned. *)
Theorem organize_summary_type_error :
  forall generate json_loads s summary metadata l text v,
  generate (List.length l) (organize_request s summary metadata)
  = Some text ->
  json_loads text = Some v ->
  (forall d, v <> VDict d) ->
  organize_summary generate json_loads s summary metadata l
  = (Raise TypeError, l ++ [organize_request s summary metadata]).
Proof.
  intros generate json_loads s summary metadata l text v
         Hanswer Hparse Hshape.
  unfold organize_summary. unfold bind at 1.
  rewrite call_ollama_run.
  fold (organize_request s summary metadata). rewrite Hanswer.
  cbn [try_loads]. rewrite Hparse.
  destruct v; try reflexivity.
  exfalso. exact (Hshape _ eq_refl).
Qed.

Lemma organize_summary_type_error_witness :
  only_call 0 (lit "[]") (List.length (@nil request))
            (organize_request main_summarizer (lit "S") sample_metadata)
  = Some (lit "[]")
  /\ loads_literals (lit "[]") = Some (VList [])
  /\ (forall d, VList [] <> VDict d)
  /\ organize_summary (only_call 0 (lit "[]")) loads_literals
                      main_summarizer (lit "S") sample_metadata []
     = (Raise TypeError,
        [organize_request main_summarizer (lit "S") sample_metadata]).
Proof.
  assert (H1 : only_call 0 (lit "[]") (List.length (@nil request))
                 (organize_request main_summarizer (lit "S")
                                   sample_metadata)
               = Some (lit "[]")) by reflexivity.
  assert (H2 : loads_literals (lit "[]") = Some (VList []))
    by reflexivity.
  assert (H3 : forall d, VList [] <> VDict d) by (intros d; discriminate).
  split; [exact H1|]. split; [exact H2|]. split; [exact H3|].
  exact (organize_summary_type_error (only_call 0 (lit "[]"))
           loads_literals main_summarizer (lit "S") sample_metadata []
           (lit "[]") (VList []) H1 H2 H3).
Defined.

(** ** More about the splitter *)

Section MoreSliceFacts.

(** A slice is never longer than the distance between its bounds. *)
Lemma slice_length_le t a b : a <= b -> len (slice t a b) <= b - a.
Proof.
  intros Hab. unfold slice, adjust, len.
  rewrite length_firstn, length_skipn.
  destruct (Z.ltb_spec a 0); destruct (Z.ltb_spec b 0); lia.
Qed.

Lemma lstrip_suffix t : exists before, t = before ++ lstrip t.
Proof.
  induction t as [|c t IH]; [exists []; reflexivity|]. simpl.
  destruct (isspace c); [|exists []; reflexivity].
  destruct IH as [before IH]. exists (c :: before). simpl. f_equal. exact IH.
Qed.

Lemma rstrip_prefix t : exists after, t = rstrip t ++ after.
Proof.
  induction t as [|c t IH]; [exists []; reflexivity|]. simpl.
  destruct IH as [after IH].
  destruct (rstrip t) as [|y r] eqn:Hr.
  - destruct (isspace c).
    + exists (c :: t). reflexivity.
    + exists after. simpl. f_equal. exact IH.
  - exists after. simpl. f_equal. exact IH.
Qed.

Lemma strip_substring t : substring (strip t) t.
Proof.
  unfold strip.
  destruct (lstrip_suffix t) as [before Hb].
  destruct (rstrip_prefix (lstrip t)) as [after Ha].
  exists before, after. rewrite <- Ha. exact Hb.
Qed.

Lemma slice_substring t a b : substring (slice t a b) t.
Proof.
  unfold slice.
  set (lo := Z.to_nat (adjust (len t) a)).
  set (n := Z.to_nat (adjust (len t) b - adjust (len t) a)).
  exists (firstn lo t), (skipn n (skipn lo t)).
  rewrite (firstn_skipn n (skipn lo t)), (firstn_skipn lo t). reflexivity.
Qed.

Lemma substring_trans a b c : substring a b -> substring b c -> substring a c.
Proof.
  intros (p1 & q1 & ->) (p2 & q2 & ->).
  exists (p2 ++ p1), (q1 ++ q2). rewrite <- !app_assoc. reflexivity.
Qed.

Lemma substring_length c t : substring c t -> len c <= len t.
Proof.
  intros (p & q & ->). unfold len. rewrite !length_app. lia.
Qed.

Lemma strip_length t : len (strip t) <= len t.
Proof. apply substring_length, strip_substring. Qed.

Lemma rstrip_head t x rest :
  rstrip t = x :: rest -> exists rest', t = x :: rest'.
Proof.
  destruct t as [|c t]; [discriminate|]. simpl.
  destruct (rstrip t); [destruct (isspace c); [discriminate|]|];
    intros [= <- _]; eexists; reflexivity.
Qed.

Lemma rstrip_last t : forall x init,
  rstrip t = init ++ [x] -> isspace x = false.
Proof.
  induction t as [|c t IH]; intros x init; simpl.
  - destruct init; discriminate.
  - destruct (rstrip t) as [|y r] eqn:Hr.
    + destruct (isspace c) eqn:Hc; [destruct init; discriminate|].
      destruct init as [|i [|i' init]]; simpl; intros [= <-]; exact Hc.
    + destruct init as [|i init]; simpl; [discriminate|].
      intros [= <- H]. apply (IH x init). exact H.
Qed.

Lemma strip_trimmed t : trimmed (strip t).
Proof.
  unfold strip. split.
  - intros x rest H. apply rstrip_head in H. destruct H as [rest' H].
    destruct (lstrip_head t) as [Hl | (c & r & Hl & Hc)];
      rewrite Hl in H; [discriminate|].
    injection H as <- _. exact Hc.
  - intros x init. apply rstrip_last.
Qed.

End MoreSliceFacts.

Section MoreLoopFacts.

Variable s : TranscriptionSummarizer.
Variable text : str.

(** A window is never wider than [chunk_size], wherever it starts. *)
Lemma window_end_le start :
  0 <= chunk_size s -> window_end s text start <= start + chunk_size s.
Proof.
  intros Hsize.
  destruct (window_end_cases s text start) as [-> | (_ & Hpos & ->)]; [lia|].
  pose proof (last_break_bound
                (slice text (search_from s start) (start + chunk_size s)))
    as Hbound.
  pose proof (slice_length_le text (search_from s start)
                (start + chunk_size s)) as Hlen.
  unfold search_from in *. lia.
Qed.

(** Nor narrower than the least a cut can leave. *)
Lemma window_end_ge start :
  start + min_step s + overlap s <= window_end s text start.
Proof.
  unfold min_step.
  destruct (window_end_cases s text start) as [-> | (_ & Hpos & ->)];
    unfold search_from in *; lia.
Qed.

(** With an overlap as large as the chunk size, a cursor at or below 0
    stays there. *)
Lemma chunk_loop_held fuel : forall start chunks,
  0 <= chunk_size s <= overlap s ->
  0 < len text ->
  start <= 0 ->
  chunk_loop fuel s text start chunks = None.
Proof.
  induction fuel as [|fuel IH]; intros start chunks Hsizes Hlen Hstart.
  - apply chunk_loop_out. lia.
  - rewrite chunk_loop_step by lia. apply IH; try assumption.
    pose proof (window_end_le start (proj1 Hsizes)). lia.
Qed.

End MoreLoopFacts.

(** X1: whatever the overlap, no segment [chunk_text] returns is longer
    than [chunk_size] (taken non-negative). *)
Theorem segments_bounded : forall s text chunks,
  0 <= chunk_size s ->
  returns s text chunks ->
  Forall (fun c => len c <= chunk_size s) chunks.
Proof.
  intros s text chunks Hsize [fuel Hrun].
  destruct (Z.le_gt_cases (len text) (chunk_size s)) as [Hshort | Hlong].
  - rewrite (chunk_text_whole fuel s text Hshort) in Hrun.
    injection Hrun as <-. constructor; [exact Hshort | constructor].
  - destruct (chunk_text_windows fuel s text chunks ltac:(lia) Hrun)
      as (ws & Hws & ->).
    pose proof (window_loop_ends s text fuel 0 ws Hws) as Hends.
    rewrite Forall_map. rewrite Forall_forall in *.
    intros [a b] Hin. specialize (Hends _ Hin). simpl in Hends.
    unfold window_text. simpl.
    pose proof (strip_length (slice text a b)) as Hstrip.
    pose proof (window_end_le s text a Hsize) as Hle.
    pose proof (window_end_ge s text a) as Hge.
    destruct (Z.le_gt_cases a b) as [Hab | Hba].
    + pose proof (slice_length_le text a b Hab). lia.
    + exfalso. clear Hstrip.
      destruct (window_end_cases s text a) as [He | (_ & Hpos & He)];
        unfold search_from in *; lia.
Qed.

Lemma segments_bounded_witness :
  0 <= chunk_size main_summarizer
  /\ returns main_summarizer stop_at_5900
       (map (window_text stop_at_5900) [(0, 5901); (5401, 11401)])
  /\ Forall (fun c => len c <= chunk_size main_summarizer)
       (map (window_text stop_at_5900) [(0, 5901); (5401, 11401)]).
Proof.
  assert (H1 : 0 <= chunk_size main_summarizer) by (simpl; lia).
  assert (H2 : returns main_summarizer stop_at_5900
                 (map (window_text stop_at_5900)
                      [(0, 5901); (5401, 11401)]))
    by (exists 2%nat; vm_compute; reflexivity).
  split; [exact H1|]. split; [exact H2|].
  exact (segments_bounded main_summarizer stop_at_5900 _ H1 H2).
Defined.

(** X2: when the overlap is at least the chunk size, [chunk_text] does
    not reject the sizes and does not return either: on every text longer
    than [chunk_size] its loop runs forever. *)
Theorem overlap_too_large_diverges : forall s text,
  0 <= chunk_size s <= overlap s ->
  chunk_size s < len text ->
  diverges s text.
Proof.
  intros s text Hsizes Hlong fuel. unfold chunk_text.
  destruct (Z.leb_spec (len text) (chunk_size s)); [lia|].
  apply chunk_loop_held; [exact Hsizes | lia | lia].
Qed.

Lemma overlap_too_large_diverges_witness :
  0 <= chunk_size (with_sizes main_summarizer 3 5)
    <= overlap (with_sizes main_summarizer 3 5)
  /\ chunk_size (with_sizes main_summarizer 3 5) < len (lit "a. b. c.")
  /\ diverges (with_sizes main_summarizer 3 5) (lit "a. b. c.").
Proof.
  assert (H1 : 0 <= chunk_size (with_sizes main_summarizer 3 5)
               <= overlap (with_sizes main_summarizer 3 5))
    by (simpl; lia).
  assert (H2 : chunk_size (with_sizes main_summarizer 3 5)
               < len (lit "a. b. c.")) by (vm_compute; reflexivity).
  split; [exact H1|]. split; [exact H2|].
  exact (overlap_too_large_diverges _ _ H1 H2).
Defined.

(** X3: on a text longer than [chunk_size], every segment returned has
    been trimmed: it neither starts nor ends with a whitespace
    character. *)
Theorem segments_trimmed : forall s text chunks,
  chunk_size s < len text ->
  returns s text chunks ->
  Forall trimmed chunks.
Proof.
  intros s text chunks Hlong [fuel Hrun].
  destruct (chunk_text_windows fuel s text chunks Hlong Hrun)
    as (ws & _ & ->).
  rewrite Forall_map, Forall_forall. intros w _. apply strip_trimmed.
Qed.

Lemma segments_trimmed_witness :
  chunk_size (with_sizes main_summarizer 6 0) < len (lit "ab. cd ef")
  /\ returns (with_sizes main_summarizer 6 0) (lit "ab. cd ef")
             [lit "ab."; lit "cd ef"]
  /\ Forall trimmed [lit "ab."; lit "cd ef"].
Proof.
  assert (H1 : chunk_size (with_sizes main_summarizer 6 0)
               < len (lit "ab. cd ef")) by (vm_compute; reflexivity).
  assert (H2 : returns (with_sizes main_summarizer 6 0) (lit "ab. cd ef")
                       [lit "ab."; lit "cd ef"])
    by (exists 2%nat; vm_compute; reflexivity).
  split; [exact H1|]. split; [exact H2|].
  exact (segments_trimmed _ _ _ H1 H2).
Defined.

(** X4: every segment [chunk_text] returns is a contiguous part of the
    text: nothing is added and nothing inside a segment is dropped or
    reordered. *)
Theorem segments_substrings : forall s text chunks,
  returns s text chunks ->
  Forall (fun c => substring c text) chunks.
Proof.
  intros s text chunks [fuel Hrun].
  destruct (Z.le_gt_cases (len text) (chunk_size s)) as [Hshort | Hlong].
  - rewrite (chunk_text_whole fuel s text Hshort) in Hrun.
    injection Hrun as <-. constructor; [|constructor].
    exists [], []. rewrite app_nil_r. reflexivity.
  - destruct (chunk_text_windows fuel s text chunks ltac:(lia) Hrun)
      as (ws & _ & ->).
    rewrite Forall_map, Forall_forall. intros w _.
    exact (substring_trans _ _ _ (strip_substring _)
             (slice_substring text (fst w) (snd w))).
Qed.

Lemma segments_substrings_witness :
  returns (with_sizes main_summarizer 6 0) (lit "ab. cd ef")
          [lit "ab."; lit "cd ef"]
  /\ Forall (fun c => substring c (lit "ab. cd ef"))
            [lit "ab."; lit "cd ef"].
Proof.
  assert (H : returns (with_sizes main_summarizer 6 0) (lit "ab. cd ef")
                      [lit "ab."; lit "cd ef"])
    by (exists 2%nat; vm_compute; reflexivity).
  split; [exact H|].
  exact (segments_substrings _ _ _ H).
Defined.

Section CountFacts.

Variable s : TranscriptionSummarizer.
Variable text : str.
Hypothesis size_nonneg : 0 <= chunk_size s.

(** From cursor [start] on, [n] windows take the cursor at most
    [n] widest steps and at least [n - 1] narrowest steps ahead. *)
Lemma window_loop_count fuel : forall start ws,
  window_loop fuel s text start [] = Some ws ->
  len text
  <= start + Z.of_nat (List.length ws) * (chunk_size s - overlap s)
  /\ (ws <> [] ->
      start + (Z.of_nat (List.length ws) - 1) * min_step s < len text).
Proof.
  induction fuel as [|fuel IH]; intros start ws Hrun;
    destruct (Z.lt_ge_cases start (len text)) as [Hlt | Hge];
    try (rewrite window_loop_done in Hrun by exact Hge;
         injection Hrun as <-; simpl; split; [lia | congruence]).
  - rewrite window_loop_out in Hrun by exact Hlt. discriminate.
  - destruct (window_loop_cons s text fuel start ws Hlt Hrun)
      as (rest & -> & Hrest).
    destruct (IH _ _ Hrest) as (Hup & Hlow).
    pose proof (window_end_le s text start size_nonneg) as Hle.
    pose proof (window_end_ge s text start) as Hge.
    cbn [List.length]. rewrite Nat2Z.inj_succ. split; [nia|].
    intros _. destruct rest as [|w rest]; [simpl; lia|].
    specialize (Hlow ltac:(discriminate)). nia.
Qed.

End CountFacts.

(** X5: on a text longer than [chunk_size], the number [n] of segments
    returned is bounded on both sides: [n] steps of [chunk_size - overlap]
    reach the end of the text, and [n - 1] steps of the least advance
    [min(chunk_size, max(chunk_size - 200, 0) + 2) - overlap] do not. *)
Theorem segments_count : forall s text chunks,
  0 <= chunk_size s ->
  chunk_size s < len text ->
  returns s text chunks ->
  len text <= Z.of_nat (List.length chunks) * (chunk_size s - overlap s)
  /\ (Z.of_nat (List.length chunks) - 1) * min_step s < len text.
Proof.
  intros s text chunks Hsize Hlong [fuel Hrun].
  destruct (chunk_text_windows fuel s text chunks Hlong Hrun)
    as (ws & Hws & ->).
  rewrite length_map.
  destruct (window_loop_count s text Hsize fuel 0 ws Hws) as (Hup & Hlow).
  split; [lia|].
  destruct ws as [|w ws]; [simpl in *; lia|].
  specialize (Hlow ltac:(discriminate)). lia.
Qed.

Lemma segments_count_witness :
  0 <= chunk_size main_summarizer
  /\ chunk_size main_summarizer < len long_text
  /\ returns main_summarizer long_text
       (map (window_text long_text)
            [(0, 6000); (5500, 11500); (11000, 17000); (16500, 22500)])
  /\ len long_text <= 4 * (6000 - 500)
  /\ (4 - 1) * 5302 < len long_text.
Proof.
  assert (H1 : 0 <= chunk_size main_summarizer) by (simpl; lia).
  assert (H2 : chunk_size main_summarizer < len long_text)
    by (vm_compute; reflexivity).
  assert (H3 : returns main_summarizer long_text
                 (map (window_text long_text)
                      [(0, 6000); (5500, 11500); (11000, 17000);
                       (16500, 22500)]))
    by (exists 4%nat; vm_compute; reflexivity).
  split; [exact H1|]. split; [exact H2|]. split; [exact H3|].
  exact (segments_count main_summarizer long_text _ H1 H2 H3).
Defined.

Section ProgressFacts.

Variable s : TranscriptionSummarizer.
Variable text : str.

(** From a cursor that is not negative, every iteration moves ahead. *)
Hypothesis progress :
  forall start, 0 <= start -> start < window_end s text start - overlap s.

Lemma window_loop_progress fuel : forall start,
  0 <= start ->
  len text - start <= Z.of_nat fuel ->
  exists ws, window_loop fuel s text start [] = Some ws.
Proof.
  induction fuel as [|fuel IH]; intros start Hstart Hfuel;
    destruct (Z.lt_ge_cases start (len text)) as [Hlt | Hge];
    try (exists []; apply window_loop_done; exact Hge); [lia|].
  pose proof (progress start Hstart) as Hadv.
  destruct (IH (window_end s text start - overlap s) ltac:(lia) ltac:(lia))
    as (ws & Hws).
  rewrite window_loop_step, window_loop_acc, Hws by exact Hlt.
  eexists; reflexivity.
Qed.

Lemma window_loop_chain fuel : forall start ws,
  0 <= start ->
  window_loop fuel s text start [] = Some ws ->
  Forall (fun w => 0 <= fst w) ws
  /\ chained (overlap s) ws
  /\ (forall w rest, ws = w :: rest -> fst w = start).
Proof.
  induction fuel as [|fuel IH]; intros start ws Hstart Hrun;
    destruct (Z.lt_ge_cases start (len text)) as [Hlt | Hge];
    try (rewrite window_loop_done in Hrun by exact Hge;
         injection Hrun as <-;
         repeat split; [constructor | intros ? ? [=]]).
  - rewrite window_loop_out in Hrun by exact Hlt. discriminate.
  - destruct (window_loop_cons s text fuel start ws Hlt Hrun)
      as (rest & -> & Hrest).
    pose proof (progress start Hstart) as Hadv.
    destruct (IH (window_end s text start - overlap s) rest
                ltac:(lia) Hrest) as (Hall & Hch & Hhd).
    repeat split.
    + constructor; [exact Hstart | exact Hall].
    + destruct rest as [|w2 rest']; [exact I|].
      split; [apply (Hhd w2 rest' eq_refl) | exact Hch].
    + intros w rest' [= <- _]. reflexivity.
Qed.

End ProgressFacts.

(** In a text without sentence endings every window is a hard cut. *)
Lemma window_end_hard_cut s text start :
  marker_free text ->
  0 <= chunk_size s ->
  0 <= start ->
  window_end s text start = start + chunk_size s.
Proof.
  intros Hfree Hsize Hstart.
  destruct (window_end_cases s text start) as [H | (Hend & Hpos & _)];
    [exact H | exfalso].
  pose proof (last_break_marker _ (Z.lt_le_incl _ _ Hpos))
    as (e & He & Hp & Hocc).
  apply (Hfree (search_from s start
                + last_break (slice text (search_from s start)
                                    (start + chunk_size s)))).
  exists e. split; [exact He|].
  assert (Hfrom : 0 <= search_from s start <= len text)
    by (unfold search_from; lia).
  split; [lia|].
  rewrite Z2Nat.inj_add by lia.
  exact (occurs_slice text _ _ e _ Hfrom Hocc).
Qed.

(** X6: on a text that contains no sentence ending ([.], [!], [?] or a
    blank-line break), a valid configuration is enough for [chunk_text] to
    return, and every window is a hard cut of exactly [chunk_size]
    characters starting [overlap] characters before the end of the one
    before. *)
Theorem hard_cuts : forall s text,
  valid_config s ->
  marker_free text ->
  chunk_size s < len text ->
  exists ws,
    windows_of s text ws
    /\ returns s text (map (window_text text) ws)
    /\ Forall (fun w => 0 <= fst w /\ snd w = fst w + chunk_size s) ws
    /\ chained (overlap s) ws.
Proof.
  intros s text Hvalid Hfree Hlong.
  assert (Hsize : 0 <= chunk_size s) by (destruct Hvalid; lia).
  assert (Hprogress : forall start, 0 <= start ->
                        start < window_end s text start - overlap s).
  { intros start Hstart.
    rewrite (window_end_hard_cut s text start Hfree Hsize Hstart).
    destruct Hvalid. lia. }
  destruct (window_loop_progress s text Hprogress (Z.to_nat (len text)) 0
              ltac:(lia) ltac:(unfold len; lia)) as (ws & Hws).
  destruct (window_loop_chain s text Hprogress _ 0 ws ltac:(lia) Hws)
    as (Hnonneg & Hch & _).
  pose proof (window_loop_ends s text _ 0 ws Hws) as Hends.
  exists ws. split; [eexists; exact Hws|].
  split; [eexists; apply chunk_text_of_windows; [exact Hlong | exact Hws]|].
  split; [|exact Hch].
  rewrite Forall_forall in *. intros w Hin.
  split; [exact (Hnonneg w Hin)|].
  rewrite (Hends w Hin).
  apply window_end_hard_cut; [exact Hfree | exact Hsize | exact (Hnonneg w Hin)].
Qed.

Lemma hard_cuts_witness :
  valid_config (with_sizes main_summarizer 6000 5999)
  /\ marker_free long_text
  /\ chunk_size (with_sizes main_summarizer 6000 5999) < len long_text
  /\ exists ws,
      windows_of (with_sizes main_summarizer 6000 5999) long_text ws
      /\ returns (with_sizes main_summarizer 6000 5999) long_text
                 (map (window_text long_text) ws)
      /\ Forall (fun w => 0 <= fst w
                          /\ snd w = fst w
                                     + chunk_size
                                         (with_sizes main_summarizer
                                                     6000 5999)) ws
      /\ chained (overlap (with_sizes main_summarizer 6000 5999)) ws.
Proof.
  assert (H1 : valid_config (with_sizes main_summarizer 6000 5999))
    by (unfold valid_config; simpl; lia).
  assert (H2 : marker_free long_text).
  { intros p Hp. pose proof (last_break_upper long_text p Hp) as Hle.
    destruct Hp as (_ & _ & Hpos & _).
    assert (Hnone : last_break long_text = -1) by (vm_compute; reflexivity).
    lia. }
  assert (H3 : chunk_size (with_sizes main_summarizer 6000 5999)
               < len long_text) by (vm_compute; reflexivity).
  split; [exact H1|]. split; [exact H2|]. split; [exact H3|].
  exact (hard_cuts _ _ H1 H2 H3).
Defined.

(** ** [extract_metadata] *)

Section MetadataFacts.

Lemma startswith_app sub rest : startswith (sub ++ rest) sub = true.
Proof.
  induction sub as [|c sub IH]; [reflexivity|]. simpl.
  rewrite N.eqb_refl. exact IH.
Qed.

Lemma startswith_split sub : forall t,
  startswith t sub = true -> t = sub ++ skipn (List.length sub) t.
Proof.
  induction sub as [|c sub IH]; intros t; [reflexivity|].
  destruct t as [|d t]; [discriminate|]. simpl.
  destruct (N.eqb_spec c d) as [<- | _]; [|discriminate].
  intros H. f_equal. exact (IH t H).
Qed.

Lemma startswith_mismatch x sub c t :
  c <> x -> startswith (c :: t) (x :: sub) = false.
Proof.
  intros Hc. cbn [startswith].
  destruct (N.eqb_spec x c) as [Heq | _]; [|reflexivity].
  exfalso. apply Hc. symmetry. exact Heq.
Qed.

(** A name without a full stop holds no [".txt"] to remove before the
    one appended to it. *)
Lemma replace_extension stem :
  Forall (fun c => c <> 46%N) stem ->
  replace (stem ++ lit ".txt") (lit ".txt") [] = stem.
Proof.
  unfold replace.
  induction 1 as [|c stem Hc _ IH]; [reflexivity|].
  cbn [app replace_from].
  assert (Hhere : startswith (c :: stem ++ lit ".txt") (lit ".txt") = false)
    by exact (startswith_mismatch 46%N (lit "txt") c _ Hc).
  rewrite Hhere, IH. reflexivity.
Qed.

(** What [cut] returns: the text split at the first [sep], or whole. *)
Lemma cut_spec sep : sep <> [] -> forall t,
  match cut sep t with
  | (before, Some after) =>
      t = before ++ sep ++ after
      /\ forall k, (k < List.length before)%nat -> occurs t sep k = false
  | (before, None) =>
      before = t /\ forall k, occurs t sep k = false
  end.
Proof.
  intros Hsep. induction t as [|c t IH].
  - simpl. split; [reflexivity|].
    intros k. apply occurs_past_end; [exact Hsep | simpl; lia].
  - cbn [cut]. destruct (startswith (c :: t) sep) eqn:Hhere.
    + split; [apply (startswith_split sep), Hhere | simpl; lia].
    + destruct (cut sep t) as [before [after|]].
      * destruct IH as (-> & Hfirst). split; [reflexivity|].
        intros [|k] Hk; [exact Hhere | apply Hfirst; simpl in Hk; lia].
      * destruct IH as (-> & Hnone). split; [reflexivity|].
        intros [|k]; [exact Hhere | apply Hnone].
Qed.

(** A date without a blank is cut at the separator that follows it. *)
Lemma cut_date d t :
  Forall (fun c => c <> 32%N) d ->
  cut (lit " -- ") (d ++ lit " -- " ++ t) = (d, Some t).
Proof.
  induction 1 as [|c d Hc _ IH].
  - cbn [app cut]. destruct t; reflexivity.
  - cbn [app cut].
    assert (Hhere : startswith (c :: d ++ lit " -- " ++ t) (lit " -- ")
                    = false)
      by exact (startswith_mismatch 32%N (lit "-- ") c _ Hc).
    rewrite Hhere, IH. reflexivity.
Qed.

Lemma count_words_bounds t :
  (0 <= count_words false t /\ 2 * count_words false t <= len t + 1)
  /\ (0 <= count_words true t /\ 2 * count_words true t <= len t).
Proof.
  unfold len.
  induction t as [|c t IH]; [simpl; lia|].
  cbn [count_words List.length]. rewrite Nat2Z.inj_succ.
  destruct (isspace c); lia.
Qed.

Lemma count_words_zero t :
  count_words false t = 0 <-> forallb isspace t = true.
Proof.
  induction t as [|c t IH]; [simpl; tauto|].
  cbn [count_words forallb].
  destruct (isspace c); cbn [andb]; [exact IH|]. cbv iota.
  pose proof (count_words_bounds t) as (_ & Hpos & _).
  split; [intros H; lia | discriminate].
Qed.

End MetadataFacts.

(** X7: for a file named [date -- title.txt], where neither part holds a
    full stop and the date holds no blank, [extract_metadata] gives back
    the date and the title, and keeps the whole name as [filename]. *)
Theorem metadata_of_dated_name : forall d t content,
  Forall (fun c => c <> 46%N) d ->
  Forall (fun c => c <> 32%N) d ->
  Forall (fun c => c <> 46%N) t ->
  let name := d ++ lit " -- " ++ t ++ lit ".txt" in
  date (extract_metadata name content) = d
  /\ title (extract_metadata name content) = t
  /\ filename (extract_metadata name content) = name.
Proof.
  intros d t content Hd Hblank Ht name.
  assert (Hstem : replace name (lit ".txt") [] = d ++ lit " -- " ++ t).
  { unfold name.
    replace (d ++ lit " -- " ++ t ++ lit ".txt")
      with ((d ++ lit " -- " ++ t) ++ lit ".txt")
      by (rewrite <- !app_assoc; reflexivity).
    apply replace_extension.
    apply Forall_app. split; [exact Hd|].
    apply Forall_app. split; [|exact Ht].
    repeat constructor; discriminate. }
  unfold extract_metadata, split1. rewrite Hstem, (cut_date d t Hblank).
  repeat split.
Qed.

Lemma metadata_of_dated_name_witness :
  Forall (fun c => c <> 46%N) (lit "2024-10-14_11-01-16")
  /\ Forall (fun c => c <> 32%N) (lit "2024-10-14_11-01-16")
  /\ Forall (fun c => c <> 46%N) (lit "[HT] 1st meeting w dr rapp")
  /\ date (extract_metadata
             (lit "2024-10-14_11-01-16 -- [HT] 1st meeting w dr rapp.txt")
             (lit "hello world"))
     = lit "2024-10-14_11-01-16"
  /\ title (extract_metadata
              (lit "2024-10-14_11-01-16 -- [HT] 1st meeting w dr rapp.txt")
              (lit "hello world"))
     = lit "[HT] 1st meeting w dr rapp".
Proof.
  assert (H1 : Forall (fun c => c <> 46%N) (lit "2024-10-14_11-01-16"))
    by (repeat constructor; discriminate).
  assert (H2 : Forall (fun c => c <> 32%N) (lit "2024-10-14_11-01-16"))
    by (repeat constructor; discriminate).
  assert (H3 : Forall (fun c => c <> 46%N)
                 (lit "[HT] 1st meeting w dr rapp"))
    by (repeat constructor; discriminate).
  split; [exact H1|]. split; [exact H2|]. split; [exact H3|].
  pose proof (metadata_of_dated_name _ _ (lit "hello world") H1 H2 H3)
    as (Hd & Ht & _).
  split; [exact Hd | exact Ht].
Defined.

(** X8: whatever the file name, with [stem] the name less every
    [".txt"]: when [" -- "] occurs in the stem, date and title are the
    parts before and after its first occurrence; when it does not, the
    date is the whole stem and the title falls back to the file name with
    its extension.  The date is never the placeholder of the source unless
    the name says so. *)
Theorem metadata_recomposes : forall name content,
  let stem := replace name (lit ".txt") [] in
  let m := extract_metadata name content in
  (stem = date m ++ lit " -- " ++ title m
   /\ forall k, (k < List.length (date m))%nat ->
                occurs stem (lit " -- ") k = false)
  \/ ((forall k, occurs stem (lit " -- ") k = false)
      /\ date m = stem /\ title m = name).
Proof.
  intros name content stem m.
  pose proof (cut_spec (lit " -- ") ltac:(discriminate) stem) as Hcut.
  unfold m, extract_metadata, split1. fold stem.
  destruct (cut (lit " -- ") stem) as [before [after|]]; cbn [date title].
  - left. exact Hcut.
  - right. destruct Hcut as (-> & Hnone). auto.
Qed.

(** X9: [char_count] is the length of the content; [word_count] is not
    negative, is 0 exactly when the content is empty or all whitespace,
    and two words need at least one character between them. *)
Theorem metadata_counts : forall name content,
  let m := extract_metadata name content in
  char_count m = len content
  /\ 0 <= word_count m
  /\ 2 * word_count m <= char_count m + 1
  /\ (word_count m = 0 <-> forallb isspace content = true).
Proof.
  intros name content m. cbn.
  pose proof (count_words_bounds content) as ((H0 & H1) & _).
  repeat split; try assumption; apply count_words_zero.
Qed.

(** ** More about the reducer and the structurer *)

Section MoreReducerFacts.

Variable generate : nat -> request -> option str.
Variable json_loads : str -> option pyval.
Variable s : TranscriptionSummarizer.

(** [organize_summary] sends one request, whether it returns or raises. *)
Lemma organize_summary_log summary metadata l :
  snd (organize_summary generate json_loads s summary metadata l)
  = l ++ [organize_request s summary metadata].
Proof.
  unfold organize_summary. unfold bind at 1. rewrite call_ollama_run.
  fold (organize_request s summary metadata).
  destruct (try_loads json_loads
              (generate (List.length l)
                        (organize_request s summary metadata)))
    as [[]|]; reflexivity.
Qed.

(** What [process_chunks] does once the summary is known. *)
Lemma process_chunks_run metadata chunks l answer l' :
  file_summary generate s chunks l = (Ok answer, l') ->
  snd (process_chunks generate json_loads s metadata chunks l)
  = l' ++ match answer with
          | Some ((_ :: _) as text) => [organize_request s text metadata]
          | _ => []
          end.
Proof.
  intros Hrun. unfold process_chunks. unfold bind at 1. rewrite Hrun.
  destruct answer as [[|c t]|]; try (simpl; rewrite app_nil_r; reflexivity).
  unfold bind.
  pose proof (organize_summary_log (c :: t) metadata l') as Hlog.
  destruct (organize_summary generate json_loads s (c :: t) metadata l')
    as [[organized | e] l'']; simpl in *; exact Hlog.
Qed.

Lemma kept_filter rs : map Some (kept rs) = filter truthy rs.
Proof.
  unfold kept.
  induction rs as [|[[|c t]|] rs IH]; simpl; rewrite ?IH; reflexivity.
Qed.

Lemma kept_length rs : (List.length (kept rs) <= List.length rs)%nat.
Proof.
  unfold kept.
  induction rs as [|[[|c t]|] rs IH]; simpl; lia.
Qed.

End MoreReducerFacts.

(** X10: a text no longer than [chunk_size] is summarized by a single
    call, in whole-document mode, on the text as it is (not trimmed); no
    combine call is made.  When the call returns [None] or an empty text
    the document is marked failed with no further request; otherwise one
    request for the structured record follows. *)
Theorem short_text_single_call :
  forall generate json_loads s fuel name content l,
  len content <= chunk_size s ->
  let answer := generate (List.length l) (whole_request s content) in
  exists run,
    process_file generate json_loads s fuel name content = Some run
    /\ (truthy answer = false ->
        run l = (Ok None, l ++ [whole_request s content]))
    /\ (forall text, answer = Some text -> text <> [] ->
        ~ failed (run l)
        /\ snd (run l)
           = l ++ [whole_request s content;
                   organize_request s text
                     (extract_metadata name content)]).
Proof.
  intros generate json_loads s fuel name content l Hshort answer.
  unfold process_file. rewrite (chunk_text_whole fuel s content Hshort).
  eexists. split; [reflexivity|].
  assert (Hrun : file_summary generate s [content] l
                 = (Ok answer, l ++ [whole_request s content]))
    by reflexivity.
  split.
  - intros Hfalse. unfold process_chunks. unfold bind at 1. rewrite Hrun.
    destruct answer as [[|c t]|]; [reflexivity | discriminate | reflexivity].
  - intros text Htext Hfull. split.
    + intros Hfailed.
      apply (process_chunks_failed generate json_loads s _ _ _ _ _ Hrun)
        in Hfailed.
      rewrite Htext in Hfailed. destruct text; [contradiction | discriminate].
    + rewrite (process_chunks_run generate json_loads s _ _ _ _ _ Hrun).
      rewrite Htext. destruct text; [contradiction|].
      rewrite <- app_assoc. reflexivity.
Qed.

Lemma short_text_single_call_witness :
  len (lit " hello ") <= chunk_size main_summarizer
  /\ exists run,
      process_file (always (lit "S")) loads_literals main_summarizer 0
                   (lit "a.txt") (lit " hello ")
      = Some run
      /\ (truthy (always (lit "S") (List.length (@nil request))
                         (whole_request main_summarizer (lit " hello ")))
          = false ->
          run [] = (Ok None,
                    [] ++ [whole_request main_summarizer (lit " hello ")]))
      /\ (forall text,
           always (lit "S") (List.length (@nil request))
                  (whole_request main_summarizer (lit " hello "))
           = Some text ->
           text <> [] ->
           ~ failed (run [])
           /\ snd (run [])
              = [] ++ [whole_request main_summarizer (lit " hello ");
                       organize_request main_summarizer text
                         (extract_metadata (lit "a.txt") (lit " hello "))]).
Proof.
  assert (H : len (lit " hello ") <= chunk_size main_summarizer)
    by evaluate.
  split; [exact H|].
  exact (short_text_single_call (always (lit "S")) loads_literals
           main_summarizer 0 (lit "a.txt") (lit " hello ") [] H).
Defined.

(** X11: with more than one segment, each segment gets one call, in
    segment order; the combine call that follows receives, joined by the
    separator and still in segment order, exactly the answers that are
    non-empty texts, whichever calls failed. *)
Theorem combine_receives_kept : forall generate s chunks l,
  (1 < List.length chunks)%nat ->
  let rs := answers generate s (List.length l) chunks in
  file_summary generate s chunks l
  = (Ok (generate (List.length l + List.length chunks)%nat
                  (combine_request s (kept rs))),
     l ++ map (partial_request s) chunks ++ [combine_request s (kept rs)])
  /\ req_prompt (combine_request s (kept rs))
     = Prompt.combine (join Prompt.separator (kept rs))
  /\ map Some (kept rs) = filter truthy rs
  /\ (List.length (kept rs) <= List.length chunks)%nat.
Proof.
  intros generate s chunks l Hmany rs.
  split; [exact (file_summary_many generate s chunks l Hmany)|].
  split; [reflexivity|]. split; [apply kept_filter|].
  unfold rs.
  rewrite <- (answers_length generate s chunks (List.length l)).
  apply kept_length.
Qed.

Lemma combine_receives_kept_witness :
  (1 < List.length [lit "a"; lit "b"; lit "c"])%nat
  /\ file_summary empty_answer main_summarizer
                  [lit "a"; lit "b"; lit "c"] []
     = (Ok (Some (lit "B")),
        [partial_request main_summarizer (lit "a");
         partial_request main_summarizer (lit "b");
         partial_request main_summarizer (lit "c");
         combine_request main_summarizer [lit "B"]]).
Proof.
  assert (H : (1 < List.length [lit "a"; lit "b"; lit "c"])%nat)
    by (simpl; lia).
  split; [exact H|].
  exact (proj1 (combine_receives_kept empty_answer main_summarizer
                  [lit "a"; lit "b"; lit "c"] [] H)).
Defined.

(** X12: with more than one segment, [process_file] sends one request
    per segment, then one combine request, then, only when the combined
    summary is a non-empty text, one request for the structured record:
    never a second request for a segment, and nothing after a combine
    call that failed. *)
Theorem requests_of_document :
  forall generate json_loads s metadata chunks l,
  (1 < List.length chunks)%nat ->
  let summaries := kept (answers generate s (List.length l) chunks) in
  let answer := generate (List.length l + List.length chunks)%nat
                         (combine_request s summaries) in
  snd (process_chunks generate json_loads s metadata chunks l)
  = l ++ map (partial_request s) chunks
      ++ [combine_request s summaries]
      ++ match answer with
         | Some ((_ :: _) as text) => [organize_request s text metadata]
         | _ => []
         end.
Proof.
  intros generate json_loads s metadata chunks l Hmany summaries answer.
  rewrite (process_chunks_run generate json_loads s metadata chunks l _ _
             (file_summary_many generate s chunks l Hmany)).
  rewrite <- !app_assoc. reflexivity.
Qed.

Lemma requests_of_document_witness :
  (1 < List.length [lit "a"; lit "b"])%nat
  /\ snd (process_chunks (always (lit "S")) loads_literals main_summarizer
            sample_metadata [lit "a"; lit "b"] [])
     = [partial_request main_summarizer (lit "a");
        partial_request main_summarizer (lit "b");
        combine_request main_summarizer [lit "S"; lit "S"];
        organize_request main_summarizer (lit "S") sample_metadata].
Proof.
  assert (H : (1 < List.length [lit "a"; lit "b"])%nat) by (simpl; lia).
  split; [exact H|].
  exact (requests_of_document (always (lit "S")) loads_literals
           main_summarizer sample_metadata [lit "a"; lit "b"] [] H).
Defined.

Section DictFacts.

Lemma str_eqb_refl a : str_eqb a a = true.
Proof.
  induction a as [|x a IH]; [reflexivity|]. simpl.
  rewrite N.eqb_refl. exact IH.
Qed.

Lemma str_eqb_eq a : forall b, str_eqb a b = true -> a = b.
Proof.
  induction a as [|x a IH]; intros [|y b]; simpl; try discriminate;
    [reflexivity|].
  destruct (N.eqb_spec x y) as [<- | _]; [|discriminate].
  intros H. f_equal. exact (IH b H).
Qed.

Lemma str_eqb_neq a b : a <> b -> str_eqb a b = false.
Proof.
  intros Hne. destruct (str_eqb a b) eqn:H; [|reflexivity].
  exfalso. exact (Hne (str_eqb_eq a b H)).
Qed.

(** Looking up the key just set finds the value set. *)
Lemma dict_get_set d key v : dict_get (dict_set d key v) key = Some v.
Proof.
  induction d as [|[k x] d IH]; simpl.
  - rewrite str_eqb_refl. reflexivity.
  - destruct (str_eqb k key) eqn:Hk; simpl; rewrite Hk;
      [reflexivity | exact IH].
Qed.

(** Setting a key leaves the other keys as they were. *)
Lemma dict_get_set_other d key v other :
  other <> key -> dict_get (dict_set d key v) other = dict_get d other.
Proof.
  intros Hne. induction d as [|[k x] d IH]; simpl.
  - rewrite str_eqb_neq by (intros ->; apply Hne; reflexivity).
    reflexivity.
  - destruct (str_eqb k key) eqn:Hk; simpl.
    + apply str_eqb_eq in Hk. subst k.
      rewrite str_eqb_neq by (intros ->; apply Hne; reflexivity).
      reflexivity.
    + destruct (str_eqb k other); [reflexivity | exact IH].
Qed.

Lemma dict_set_nonempty d key v : dict_set d key v <> [].
Proof.
  destruct d as [|[k x] d]; simpl; [discriminate|].
  destruct (str_eqb k key); discriminate.
Qed.

End DictFacts.

(** X13: when the answer parses as a JSON object, [organize_summary]
    returns that object with [metadata] and [summary] set to the metadata
    of the file and the summary text, whatever the service had put under
    these two keys; every other key keeps the value the service gave. *)
Theorem organize_summary_parsed :
  forall generate json_loads s summary metadata l d,
  try_loads json_loads
            (generate (List.length l) (organize_request s summary metadata))
  = Some (VDict d) ->
  exists d',
    organize_summary generate json_loads s summary metadata l
    = (Ok (VDict d'), l ++ [organize_request s summary metadata])
    /\ dict_get d' (lit "metadata") = Some (metadata_dict metadata)
    /\ dict_get d' (lit "summary") = Some (VStr summary)
    /\ forall key, key <> lit "metadata" -> key <> lit "summary" ->
                   dict_get d' key = dict_get d key.
Proof.
  intros generate json_loads s summary metadata l d Hparse.
  exists (dict_set (dict_set d (lit "metadata") (metadata_dict metadata))
                   (lit "summary") (VStr summary)).
  split; [|split; [|split]].
  - unfold organize_summary. unfold bind at 1. rewrite call_ollama_run.
    fold (organize_request s summary metadata). rewrite Hparse.
    reflexivity.
  - rewrite dict_get_set_other by discriminate. apply dict_get_set.
  - apply dict_get_set.
  - intros key Hm Hs. rewrite !dict_get_set_other by assumption.
    reflexivity.
Qed.

Lemma organize_summary_parsed_witness :
  try_loads loads_standup
            (always standup_json (List.length (@nil request))
               (organize_request main_summarizer (lit "S") sample_metadata))
  = Some (VDict standup_items)
  /\ organize_summary (always standup_json) loads_standup main_summarizer
                      (lit "S") sample_metadata []
     = (Ok (VDict [(lit "title", VStr (lit "Standup"));
                   (lit "summary", VStr (lit "S"));
                   (lit "metadata", metadata_dict sample_metadata);
                   (lit "tags", VList [VStr (lit "t1")])]),
        [organize_request main_summarizer (lit "S") sample_metadata])
  /\ exists d',
      organize_summary (always standup_json) loads_standup main_summarizer
                       (lit "S") sample_metadata []
      = (Ok (VDict d'),
         [] ++ [organize_request main_summarizer (lit "S") sample_metadata])
      /\ dict_get d' (lit "metadata") = Some (metadata_dict sample_metadata)
      /\ dict_get d' (lit "summary") = Some (VStr (lit "S"))
      /\ dict_get d' (lit "title") = Some (VStr (lit "Standup"))
      /\ dict_get d' (lit "tags") = Some (VList [VStr (lit "t1")])
      /\ dict_get standup_items (lit "summary")
         = Some (VStr (lit "from the model"))
      /\ dict_get standup_items (lit "metadata") = Some VNone.
Proof.
  assert (H : try_loads loads_standup
                (always standup_json (List.length (@nil request))
                   (organize_request main_summarizer (lit "S")
                                     sample_metadata))
              = Some (VDict standup_items)) by reflexivity.
  split; [exact H|]. split; [reflexivity|].
  destruct (organize_summary_parsed (always standup_json) loads_standup
              main_summarizer (lit "S") sample_metadata [] standup_items H)
    as (d' & Hrun & Hmeta & Hsum & Hother).
  exists d'. split; [exact Hrun|]. split; [exact Hmeta|].
  split; [exact Hsum|].
  split; [rewrite (Hother (lit "title")) by discriminate; reflexivity|].
  split; [rewrite (Hother (lit "tags")) by discriminate; reflexivity|].
  split; reflexivity.
Defined.

(** X14: whenever [organize_summary] returns, what it returns is a dict
    that holds the metadata of the file under [metadata] and the summary
    text under [summary]; it is never empty, so [process_directory] always
    takes it as a result. *)
Theorem organize_summary_returns_record :
  forall generate json_loads s summary metadata l r l',
  organize_summary generate json_loads s summary metadata l = (Ok r, l') ->
  exists d,
    r = VDict d
    /\ dict_get d (lit "metadata") = Some (metadata_dict metadata)
    /\ dict_get d (lit "summary") = Some (VStr summary)
    /\ py_truthy r = true
    /\ l' = l ++ [organize_request s summary metadata].
Proof.
  intros generate json_loads s summary metadata l r l'.
  unfold organize_summary. unfold bind at 1. rewrite call_ollama_run.
  fold (organize_request s summary metadata).
  set (base := match try_loads json_loads _ with
               | Some v => v
               | None => fallback summary metadata
               end).
  assert (Hbase : (exists d, base = VDict d)
                  \/ setitem base (lit "metadata") (metadata_dict metadata)
                     = Raise TypeError).
  { destruct base; try (right; reflexivity). left. eexists; reflexivity. }
  destruct Hbase as [[d ->] | Hraise].
  - intros [= <- <-].
    exists (dict_set (dict_set d (lit "metadata") (metadata_dict metadata))
                     (lit "summary") (VStr summary)).
    split; [reflexivity|].
    split; [rewrite dict_get_set_other by discriminate; apply dict_get_set|].
    split; [apply dict_get_set|]. split; [|reflexivity].
    simpl.
    destruct (dict_set _ (lit "summary") (VStr summary)) eqn:Hd;
      [exfalso; exact (dict_set_nonempty _ _ _ Hd) | reflexivity].
  - unfold bind, lift. rewrite Hraise. discriminate.
Qed.

Lemma organize_summary_returns_record_witness :
  organize_summary (only_call 0 (lit "not json at all")) loads_literals
                   main_summarizer (lit "S") sample_metadata []
  = (Ok (fallback_record (lit "S") sample_metadata),
     [organize_request main_summarizer (lit "S") sample_metadata])
  /\ exists d,
      fallback_record (lit "S") sample_metadata = VDict d
      /\ dict_get d (lit "metadata") = Some (metadata_dict sample_metadata)
      /\ dict_get d (lit "summary") = Some (VStr (lit "S"))
      /\ py_truthy (fallback_record (lit "S") sample_metadata) = true
      /\ [organize_request main_summarizer (lit "S") sample_metadata]
         = [] ++ [organize_request main_summarizer (lit "S")
                                   sample_metadata].
Proof.
  assert (H : organize_summary (only_call 0 (lit "not json at all"))
                loads_literals main_summarizer (lit "S") sample_metadata []
              = (Ok (fallback_record (lit "S") sample_metadata),
                 [organize_request main_summarizer (lit "S")
                                   sample_metadata]))
    by reflexivity.
  split; [exact H|].
  exact (organize_summary_returns_record _ _ _ _ _ _ _ _ H).
Defined.

(** ** The walk of a directory *)

Section DirectoryFacts.

Variable generate : nat -> request -> option str.
Variable json_loads : str -> option pyval.
Variable s : TranscriptionSummarizer.
Variable read_text : str -> option str.
Variable can_write : str -> bool.

(** With an overlap that lets the cursor advance, as many iterations as
    the text has characters are enough. *)
Lemma chunk_text_enough_fuel fuel text :
  overlap s < chunk_size s ->
  advancing s ->
  len text <= Z.of_nat fuel ->
  exists chunks, chunk_text fuel s text = Some chunks.
Proof.
  intros Hsmall Hadv Hfuel.
  destruct (Z.le_gt_cases (len text) (chunk_size s)) as [Hshort | Hlong].
  - exists [text]. apply chunk_text_whole, Hshort.
  - destruct (window_loop_terminates s text Hsmall Hadv fuel 0) as (ws & Hws);
      [lia|].
    exists (map (window_text text) ws).
    apply chunk_text_of_windows; [lia | exact Hws].
Qed.

Lemma process_path_total fuel name l :
  overlap s < chunk_size s ->
  advancing s ->
  (forall content, read_text name = Some content ->
                   len content <= Z.of_nat fuel) ->
  exists a l',
    process_path generate json_loads s read_text fuel name l = Some (a, l').
Proof.
  intros Hsmall Hadv Hfuel. unfold process_path, process_file.
  destruct (read_text name) as [content|]; [|eexists _, _; reflexivity].
  destruct (chunk_text_enough_fuel fuel content Hsmall Hadv
              (Hfuel content eq_refl)) as (chunks & ->).
  destruct (process_chunks generate json_loads s _ chunks l)
    as [[result | e] l']; eexists _, _; reflexivity.
Qed.

(** One file adds at most one entry to each list and at least one entry
    in all; exactly one when its summary can be written. *)
Lemma record_attempt_counts name a t :
  let t' := record_attempt can_write name a t in
  (List.length (results t') <= S (List.length (results t)))%nat
  /\ (List.length (failed_files t') <= S (List.length (failed_files t)))%nat
  /\ (S (List.length (results t) + List.length (failed_files t))
      <= List.length (results t') + List.length (failed_files t'))%nat
  /\ (can_write name = true ->
      (List.length (results t') + List.length (failed_files t')
       = S (List.length (results t) + List.length (failed_files t)))%nat)
  /\ (forall x, In x (failed_files t') -> In x (failed_files t) \/ x = name).
Proof.
  unfold record_attempt.
  destruct a as [[result|]|]; [destruct (py_truthy result);
                               [destruct (can_write name)|]| |];
    cbn [results failed_files]; rewrite ?length_app; cbn [List.length];
    repeat split; try lia; try discriminate; try (intros _; lia);
    intros x Hx; rewrite ?in_app_iff in Hx; simpl in Hx;
    intuition (subst; auto).
Qed.

Lemma process_each_counts fuel names :
  overlap s < chunk_size s ->
  advancing s ->
  (forall name content, In name names -> read_text name = Some content ->
                        len content <= Z.of_nat fuel) ->
  forall t0 l,
  exists t l',
    process_each generate json_loads s read_text can_write fuel names t0 l
    = Some (t, l')
    /\ (List.length (results t)
        <= List.length (results t0) + List.length names)%nat
    /\ (List.length (failed_files t)
        <= List.length (failed_files t0) + List.length names)%nat
    /\ (List.length (results t0) + List.length (failed_files t0)
        + List.length names
        <= List.length (results t) + List.length (failed_files t))%nat
    /\ ((forall name, In name names -> can_write name = true) ->
        (List.length (results t) + List.length (failed_files t)
         = List.length (results t0) + List.length (failed_files t0)
           + List.length names)%nat)
    /\ (forall x, In x (failed_files t) ->
                  In x (failed_files t0) \/ In x names).
Proof.
  intros Hsmall Hadv. induction names as [|name names IH]; intros Hfuel t0 l.
  - exists t0, l. simpl. repeat split; try lia. intros x Hx. left. exact Hx.
  - destruct (process_path_total fuel name l Hsmall Hadv
                (fun content => Hfuel name content (or_introl eq_refl)))
      as (a & l1 & Hpath).
    destruct (IH (fun n c Hin => Hfuel n c (or_intror Hin))
                 (record_attempt can_write name a t0) l1)
      as (t & l' & Hrun & Hr & Hf & Hsum & Heq & Hin).
    destruct (record_attempt_counts name a t0)
      as (Hr1 & Hf1 & Hsum1 & Heq1 & Hin1).
    exists t, l'. cbn [process_each]. rewrite Hpath.
    split; [exact Hrun|]. cbn [List.length].
    repeat split; try lia.
    + intros Hall.
      specialize (Heq (fun n Hn => Hall n (or_intror Hn))).
      specialize (Heq1 (Hall name (or_introl eq_refl))). lia.
    + intros x Hx. destruct (Hin x Hx) as [H | H]; [|right; right; exact H].
      destruct (Hin1 x H) as [H' | ->]; [left; exact H' | right; left; reflexivity].
Qed.

End DirectoryFacts.

(** X15: under sizes that let the cursor advance (those of the
    constructor among them) the loop of [process_directory] ends, and when
    every summary file can be written each file is counted once: the
    [successful] and [failed] counts of the index add up to
    [total_files]. *)
Theorem directory_accounting :
  forall generate json_loads s read_text can_write fuel names l,
  overlap s < chunk_size s ->
  advancing s ->
  (forall name content, In name names -> read_text name = Some content ->
                        len content <= Z.of_nat fuel) ->
  (forall name, In name names -> can_write name = true) ->
  exists t l',
    process_each generate json_loads s read_text can_write fuel names
                 (mkTally [] []) l
    = Some (t, l')
    /\ let '(total, successful, failed) := index_counts names t in
       successful + failed = total.
Proof.
  intros generate json_loads s read_text can_write fuel names l
         Hsmall Hadv Hfuel Hwrite.
  destruct (process_each_counts generate json_loads s read_text can_write
              fuel names Hsmall Hadv Hfuel (mkTally [] []) l)
    as (t & l' & Hrun & _ & _ & _ & Heq & _).
  exists t, l'. split; [exact Hrun|].
  specialize (Heq Hwrite). unfold index_counts. simpl in Heq. lia.
Qed.

Lemma directory_accounting_witness :
  overlap main_summarizer < chunk_size main_summarizer
  /\ advancing main_summarizer
  /\ (forall name content, In name [lit "a.txt"; lit "b.txt"] ->
        read_three name = Some content -> len content <= Z.of_nat 5)
  /\ (forall name, In name [lit "a.txt"; lit "b.txt"] ->
        write_three name = true)
  /\ exists t l',
      process_each (always (lit "S")) loads_literals main_summarizer
                   read_three write_three 5 [lit "a.txt"; lit "b.txt"]
                   (mkTally [] []) []
      = Some (t, l')
      /\ let '(total, successful, failed) :=
           index_counts [lit "a.txt"; lit "b.txt"] t in
         successful + failed = total.
Proof.
  assert (H1 : overlap main_summarizer < chunk_size main_summarizer)
    by (simpl; lia).
  assert (H2 : advancing main_summarizer)
    by (unfold advancing; simpl; lia).
  assert (H3 : forall name content, In name [lit "a.txt"; lit "b.txt"] ->
                 read_three name = Some content ->
                 len content <= Z.of_nat 5).
  { intros name content [<- | [<- | []]]; vm_compute;
      intros [= <-]; discriminate. }
  assert (H4 : forall name, In name [lit "a.txt"; lit "b.txt"] ->
                 write_three name = true).
  { intros name [<- | [<- | []]]; reflexivity. }
  split; [exact H1|]. split; [exact H2|]. split; [exact H3|].
  split; [exact H4|].
  exact (directory_accounting (always (lit "S")) loads_literals
           main_summarizer read_three write_three 5
           [lit "a.txt"; lit "b.txt"] [] H1 H2 H3 H4).
Defined.

(** X16: under the same sizes and whether or not the summary files can
    be written, every file is counted at least once and at most once in
    each list ([successful] and [failed] are each at most [total_files],
    their sum at least [total_files]), and [failed_files] holds only names
    of the directory.  The sum can exceed [total_files]: a result is
    appended before its file is written. *)
Theorem directory_bounds :
  forall generate json_loads s read_text can_write fuel names l,
  overlap s < chunk_size s ->
  advancing s ->
  (forall name content, In name names -> read_text name = Some content ->
                        len content <= Z.of_nat fuel) ->
  exists t l',
    process_each generate json_loads s read_text can_write fuel names
                 (mkTally [] []) l
    = Some (t, l')
    /\ (let '(total, successful, failed) := index_counts names t in
        successful <= total /\ failed <= total
        /\ total <= successful + failed)
    /\ incl (failed_files t) names.
Proof.
  intros generate json_loads s read_text can_write fuel names l
         Hsmall Hadv Hfuel.
  destruct (process_each_counts generate json_loads s read_text can_write
              fuel names Hsmall Hadv Hfuel (mkTally [] []) l)
    as (t & l' & Hrun & Hr & Hf & Hsum & _ & Hin).
  exists t, l'. split; [exact Hrun|]. split.
  - unfold index_counts. simpl in *. lia.
  - intros x Hx. destruct (Hin x Hx) as [[] | H]. exact H.
Qed.

Lemma directory_bounds_witness :
  overlap main_summarizer < chunk_size main_summarizer
  /\ advancing main_summarizer
  /\ (forall name content, In name three_files ->
        read_three name = Some content -> len content <= Z.of_nat 5)
  /\ (exists l',
        process_each (always (lit "S")) loads_literals main_summarizer
                     read_three write_three 5 three_files (mkTally [] []) []
        = Some (mkTally [fallback_record (lit "S")
                           (extract_metadata (lit "a.txt") (lit "hello"));
                         fallback_record (lit "S")
                           (extract_metadata (lit "c.txt") (lit "hello"))]
                        [lit "b.txt"; lit "c.txt"],
                l'))
  /\ exists t l',
      process_each (always (lit "S")) loads_literals main_summarizer
                   read_three write_three 5 three_files (mkTally [] []) []
      = Some (t, l')
      /\ (let '(total, successful, failed) := index_counts three_files t in
          successful <= total /\ failed <= total
          /\ total <= successful + failed)
      /\ incl (failed_files t) three_files.
Proof.
  assert (H1 : overlap main_summarizer < chunk_size main_summarizer)
    by (simpl; lia).
  assert (H2 : advancing main_summarizer)
    by (unfold advancing; simpl; lia).
  assert (H3 : forall name content, In name three_files ->
                 read_three name = Some content ->
                 len content <= Z.of_nat 5).
  { intros name content [<- | [<- | [<- | []]]]; vm_compute;
      intros [= <-]; discriminate. }
  split; [exact H1|]. split; [exact H2|]. split; [exact H3|].
  split; [eexists; vm_compute; reflexivity|].
  exact (directory_bounds (always (lit "S")) loads_literals
           main_summarizer read_three write_three 5 three_files []
           H1 H2 H3).
Defined.

(** X17: a document whose summary was produced but whose structured
    answer is JSON other than an object is lost to the [TypeError]: the
    exception is caught by [process_directory], the file is listed as
    failed, nothing is added to the results, and the loop goes on with the
    next file. *)
Theorem type_error_counted_failed :
  forall generate json_loads s read_text can_write fuel name rest t0 l
         content summary text v,
  read_text name = Some content ->
  len content <= chunk_size s ->
  generate (List.length l) (whole_request s content) = Some summary ->
  summary <> [] ->
  generate (S (List.length l))
           (organize_request s summary (extract_metadata name content))
  = Some text ->
  json_loads text = Some v ->
  (forall d, v <> VDict d) ->
  process_each generate json_loads s read_text can_write fuel
               (name :: rest) t0 l
  = process_each generate json_loads s read_text can_write fuel rest
      {| results := results t0;
         failed_files := failed_files t0 ++ [name] |}
      (l ++ [whole_request s content;
             organize_request s summary (extract_metadata name content)]).
Proof.
  intros generate json_loads s read_text can_write fuel name rest t0 l
         content summary text v Hread Hshort Hsummary Hfull Hanswer Hparse
         Hshape.
  cbn [process_each]. unfold process_path, process_file.
  rewrite Hread, (chunk_text_whole fuel s content Hshort).
  assert (Hrun : process_chunks generate json_loads s
                   (extract_metadata name content) [content] l
                 = (Raise TypeError,
                    l ++ [whole_request s content;
                          organize_request s summary
                            (extract_metadata name content)])).
  { unfold process_chunks, file_summary, summarize_chunk.
    unfold bind at 1. rewrite call_ollama_run.
    fold (whole_request s content). rewrite Hsummary.
    destruct summary as [|c summary]; [contradiction|].
    unfold bind at 1. unfold organize_summary. unfold bind at 1.
    rewrite call_ollama_run.
    fold (organize_request s (c :: summary)
            (extract_metadata name content)).
    rewrite length_app, Nat.add_1_r, Hanswer. cbn [try_loads].
    rewrite Hparse, <- app_assoc.
    destruct v; try reflexivity.
    exfalso. exact (Hshape _ eq_refl). }
  rewrite Hrun. reflexivity.
Qed.

Lemma type_error_counted_failed_witness :
  read_three (lit "a.txt") = Some (lit "hello")
  /\ len (lit "hello") <= chunk_size main_summarizer
  /\ always (lit "[]") (List.length (@nil request))
            (whole_request main_summarizer (lit "hello"))
     = Some (lit "[]")
  /\ lit "[]" <> []
  /\ always (lit "[]") (S (List.length (@nil request)))
            (organize_request main_summarizer (lit "[]")
               (extract_metadata (lit "a.txt") (lit "hello")))
     = Some (lit "[]")
  /\ loads_literals (lit "[]") = Some (VList [])
  /\ (forall d, VList [] <> VDict d)
  /\ process_each (always (lit "[]")) loads_literals main_summarizer
                  read_three write_three 0 [lit "a.txt"] (mkTally [] []) []
     = Some (mkTally [] [lit "a.txt"],
             [whole_request main_summarizer (lit "hello");
              organize_request main_summarizer (lit "[]")
                (extract_metadata (lit "a.txt") (lit "hello"))]).
Proof.
  assert (H1 : read_three (lit "a.txt") = Some (lit "hello"))
    by reflexivity.
  assert (H2 : len (lit "hello") <= chunk_size main_summarizer)
    by evaluate.
  assert (H3 : always (lit "[]") (List.length (@nil request))
                 (whole_request main_summarizer (lit "hello"))
               = Some (lit "[]")) by reflexivity.
  assert (H4 : lit "[]" <> []) by discriminate.
  assert (H5 : always (lit "[]") (S (List.length (@nil request)))
                 (organize_request main_summarizer (lit "[]")
                    (extract_metadata (lit "a.txt") (lit "hello")))
               = Some (lit "[]")) by reflexivity.
  assert (H6 : loads_literals (lit "[]") = Some (VList []))
    by reflexivity.
  assert (H7 : forall d, VList [] <> VDict d) by (intros d; discriminate).
  repeat (split; [assumption|]).
  rewrite (type_error_counted_failed (always (lit "[]")) loads_literals
             main_summarizer read_three write_three 0 (lit "a.txt") []
             (mkTally [] []) [] (lit "hello") (lit "[]") (lit "[]")
             (VList []) H1 H2 H3 H4 H5 H6 H7).
  reflexivity.
Defined.

Section PromptFacts.

Lemma join_substring sep : forall parts p,
  In p parts -> substring p (join sep parts).
Proof.
  induction parts as [|q parts IH]; intros p []; cbn [join].
  - subst q. destruct parts as [|q' parts].
    + exists [], []. rewrite app_nil_r. reflexivity.
    + exists [], (sep ++ join sep (q' :: parts)). reflexivity.
  - destruct parts as [|q' parts]; [contradiction|].
    destruct (IH p H) as (before & after & Heq).
    exists (q ++ sep ++ before), after.
    rewrite Heq, <- !app_assoc. reflexivity.
Qed.

End PromptFacts.

(** X18: the texts travel whole: the prompt of a segment's request
    contains the segment, the prompt of the combine request contains every
    partial summary it was given, and the prompt of the request for the
    structured record contains the summary and the date of the file. *)
Theorem prompts_embed_text : forall s chunk summaries summary metadata,
  substring chunk (req_prompt (partial_request s chunk))
  /\ substring chunk (req_prompt (whole_request s chunk))
  /\ Forall (fun t => substring t (req_prompt (combine_request s summaries)))
            summaries
  /\ substring summary (req_prompt (organize_request s summary metadata))
  /\ substring (date metadata)
               (req_prompt (organize_request s summary metadata)).
Proof.
  intros s chunk summaries summary metadata.
  split; [apply join_substring; simpl; tauto|].
  split; [apply join_substring; simpl; tauto|].
  split; [|split].
  - rewrite Forall_forall. intros t Ht.
    apply (substring_trans _ (join Prompt.separator summaries)).
    + apply join_substring, Ht.
    + apply join_substring. simpl. tauto.
  - apply join_substring. simpl. tauto.
  - apply (substring_trans _
             (lit "2. Date (if mentioned in content): " ++ date metadata)).
    + exists (lit "2. Date (if mentioned in content): "), [].
      rewrite app_nil_r. reflexivity.
    + apply join_substring. simpl. tauto.
Qed.
